(** * LNURL-auth in the browser extension: a model of
      [src/extension/background-script/actions/lnurl/auth.ts]

    The file embeds the two functions of the source, [auth] and
    [authWithPrompt], as programs of a small state-and-exception monad.
    The state is what the source mutates (the URL object held by the
    challenge, the allowances table, the persisted copy of the table) together
    with a log of every call made to a collaborator (event bus, database,
    consent prompt, connector, crypto-js, signer, axios, console).  What the
    collaborators answer is read from an environment record. *)

From Stdlib Require Import ZArith Ascii DecimalString.
From stdpp Require Import gmap strings list fin_maps.

Local Open Scope Z_scope.
Local Open Scope string_scope.
Local Open Scope list_scope.

(** ** Strings as JavaScript uses them here *)

Module JsString.

(** The case mappings act on the ASCII letters; the only literal the source
    compares against after a case mapping is the ASCII word [OK]. *)
Definition is_lower (c : ascii) : bool :=
  ((97 <=? Ascii.N_of_ascii c) && (Ascii.N_of_ascii c <=? 122))%N.

Definition is_upper (c : ascii) : bool :=
  ((65 <=? Ascii.N_of_ascii c) && (Ascii.N_of_ascii c <=? 90))%N.

Definition upper_char (c : ascii) : ascii :=
  if is_lower c then Ascii.ascii_of_N (Ascii.N_of_ascii c - 32) else c.

Definition lower_char (c : ascii) : ascii :=
  if is_upper c then Ascii.ascii_of_N (Ascii.N_of_ascii c + 32) else c.

Fixpoint map_chars (f : ascii → ascii) (s : string) : string :=
  match s with
  | EmptyString => EmptyString
  | String c r => String (f c) (map_chars f r)
  end.

(** [s.toUpperCase()] and [s.toLowerCase()] *)
Definition toUpperCase : string → string := map_chars upper_char.
Definition toLowerCase : string → string := map_chars lower_char.

(** Truthiness of a string value: [!s] holds exactly for the empty string. *)
Definition truthy (s : string) : bool :=
  match s with EmptyString => false | String _ _ => true end.

(** Dexie's [equalsIgnoreCase]: equality up to the case of letters. *)
Definition equalsIgnoreCase (a b : string) : bool :=
  bool_decide (toLowerCase a = toLowerCase b).

(** [n.toString()] for an integer-valued number *)
Definition of_Z (z : Z) : string := NilZero.string_of_int (Z.to_int z).

End JsString.

(** ** crypto-js [enc-hex] *)

Module Hex.

Definition digit (n : N) : ascii :=
  if (n <? 10)%N then Ascii.ascii_of_N (48 + n) else Ascii.ascii_of_N (87 + n).

(** [Hex.stringify]: two lower-case digits per byte, high nibble first. *)
Fixpoint stringify (bytes : list Byte.byte) : string :=
  match bytes with
  | [] => EmptyString
  | b :: rest =>
      String (digit (Byte.to_N b / 16))
        (String (digit (Byte.to_N b mod 16)) (stringify rest))
  end.

End Hex.

(** ** The URL object and its [searchParams] *)

(** The query is kept as the ordered list of name/value pairs that
    [URLSearchParams] exposes: order and duplicates are observable. *)
Record URL := mkURL {
  protocol : string;
  host : string;
  pathname : string;
  searchParams : list (string * string);
  hash : string
}.

Module URLSearchParams.

Definition without (name : string) (l : list (string * string))
  : list (string * string) :=
  List.filter (λ p, negb (bool_decide (p.1 = name))) l.

(** [set(name, value)]: the first pair called [name] takes the value and
    the later ones are removed; with no such pair a new one is appended. *)
Fixpoint set (name value : string) (l : list (string * string))
  : list (string * string) :=
  match l with
  | [] => [(name, value)]
  | (n, v) :: rest =>
      if bool_decide (n = name)
      then (name, value) :: without name rest
      else (n, v) :: set name value rest
  end.

(** [get(name)]: the value of the first pair called [name]. *)
Fixpoint get (name : string) (l : list (string * string)) : option string :=
  match l with
  | [] => None
  | (n, v) :: rest => if bool_decide (n = name) then Some v else get name rest
  end.

(** [getAll(name)] *)
Definition getAll (name : string) (l : list (string * string)) : list string :=
  (List.filter (λ p, bool_decide (p.1 = name)) l).*2.

End URLSearchParams.

Definition URL_set (name value : string) (u : URL) : URL :=
  {| protocol := protocol u; host := host u; pathname := pathname u;
     searchParams := URLSearchParams.set name value (searchParams u);
     hash := hash u |}.

(** ** Values, exceptions and the records of the source *)

(** JavaScript values that can travel where the source does not fix a type:
    a rejected promise's reason, the [error] field of the result. *)
Inductive JsValue :=
| JsUndefined
| JsNull
| JsBool (b : bool)
| JsNumber (n : Z)
| JsString (s : string).

(** What a [throw] or a rejected promise carries.  [AxiosError] is the case
    [axios.isAxiosError(e)]; it holds [e.message] and [e.response?.data?.reason].
    [Error] is any other instance of [Error]; [NonError] is any other value. *)
Inductive Exn :=
| Error (message : string)
| AxiosError (message : string) (response_reason : option string)
| NonError (v : JsValue).

(** [e instanceof Error], with the message when it holds. *)
Definition instanceof_Error (e : Exn) : option string :=
  match e with
  | Error m => Some m
  | AxiosError m _ => Some m
  | NonError _ => None
  end.

(** The URL object of a challenge lives in the store; the challenge holds a
    reference to it. *)
Definition loc := positive.

Record LNURLDetails := mkLNURLDetails {
  tag : string;
  k1 : string;
  url : loc
}.

(** [message.origin]: [origin_host] is [None] when the object has no [host]
    property. *)
Record Origin := mkOrigin {
  origin_host : option string
}.

Record Message := mkMessage {
  origin : Origin;
  args : list (string * JsValue);
  (** the remaining own properties, which the spread copies *)
  rest : list (string * JsValue)
}.

(** [{ ...message, type: "lnurlAuth", args: { ...message.args, lnurlDetails } }] *)
Record PromptMessage := mkPromptMessage {
  prompt_spread : Message;
  prompt_type : string;
  prompt_args_spread : list (string * JsValue);
  prompt_args_lnurlDetails : LNURLDetails
}.

(** [loginStatus] *)
Record LoginStatus := mkLoginStatus {
  confirmed : bool;
  remember : bool
}.

(** A row of [db.allowances]. *)
Record Allowance := mkAllowance {
  id : option Z;
  allowance_host : string;
  enabled : bool;
  lnurlAuth : bool
}.

(** The body of the callback's answer, declared as
    [{ status: string; reason?: string }], and the axios response around it.
    The declaration is not checked when the answer arrives: [status] is
    [None] for a body that has no string there (an empty body, a body
    without the field, a field of another type). *)
Record ResponseData := mkResponseData {
  status : option string;
  reason : option string
}.

Record AxiosResponse := mkAxiosResponse {
  data : ResponseData
}.

(** What [authWithPrompt] resolves to: [undefined], [{ error }] or [{ data }]. *)
Inductive AuthOutcome :=
| OutUndefined
| OutError (error : JsValue)
| OutData (d : ResponseData).

(** Payloads of the three topics. *)
Inductive Payload :=
| PStart (message : Message) (lnurlDetails : LNURLDetails)
| PFailedError (error : string) (lnurlDetails : LNURLDetails) (o : Origin)
| PFailedResponse (authResponse : option AxiosResponse)
    (lnurlDetails : LNURLDetails) (o : Origin)
| PSuccess (authResponse : AxiosResponse) (lnurlDetails : LNURLDetails) (o : Origin).

(** Every call that leaves the two functions. *)
Inductive Call :=
| PubSub_publish (topic : string) (payload : Payload)
| db_allowances_first (h : string)
| db_allowances_update (key : Z) (lnurlAuth_change : bool)
| db_saveToStorage
| state_getState_password
| utils_openPrompt (promptMessage : PromptMessage)
| state_getConnector
| connector_signMessage (message : string) (key_family key_index : Z)
| crypto_sha256 (message : string)
| crypto_hmacSHA256 (message key : string)
| HashKeySigner_new (keyHex : string)
| utils_hexToUint8Array (hexString : string)
| signer_sign (message : list Byte.byte)
| Date_now
| axios_get (href : string)
| console_error (e : Exn)
| console_log (reason : option string).

(** ** Collaborators *)

(** The pure library functions [auth] calls. [sign_toDER] is
    [new HashKeySigner(key).sign(k1).toDER("hex")], [pkHex] the signer's
    [pkHex], [URL_toString] the serialisation of a URL object.  The signer is
    reached with a key and a message that are not empty, and is taken to
    return. *)
Record Libs := mkLibs {
  sha256 : string → list Byte.byte;
  hmacSHA256 : string → string → list Byte.byte;
  hexToUint8Array : string → option (list Byte.byte);
  sign_toDER : string → list Byte.byte → string;
  pkHex : string → string;
  URL_toString : URL → string
}.

(** What the outer world answers during one run. *)
Record Env := mkEnv {
  password : option string;
  openPrompt : PromptMessage → Exn + LoginStatus;
  getConnector : option Exn;
  signMessage : string → Z → Z → Exn + option string;
  axios_get_reply : string → Exn + AxiosResponse;
  now : Z
}.

(** ** State and the monad *)

Record State := mkState {
  heap : gmap loc URL;
  allowances : list Allowance;
  storage : list Allowance;
  calls : list Call
}.

Inductive Result (A : Type) :=
| Ok (a : A)
| Throw (e : Exn).
Arguments Ok {A} a.
Arguments Throw {A} e.

Definition M (A : Type) : Type := State → Result A * State.

#[global] Instance M_ret : MRet M := λ A a s, (Ok a, s).

#[global] Instance M_bind : MBind M := λ A B f m s,
  match m s with
  | (Ok a, s') => f a s'
  | (Throw e, s') => (Throw e, s')
  end.

Definition throw {A} (e : Exn) : M A := λ s, (Throw e, s).

(** [try { body } catch (e) { handler e }] *)
Definition try_catch {A} (body : M A) (handler : Exn → M A) : M A := λ s,
  match body s with
  | (Ok a, s') => (Ok a, s')
  | (Throw e, s') => handler e s'
  end.

Definition gets {A} (f : State → A) : M A := λ s, (Ok (f s), s).

Definition modify (f : State → State) : M unit := λ s, (Ok tt, f s).

Definition log (c : Call) : M unit :=
  modify (λ s, {| heap := heap s; allowances := allowances s;
                  storage := storage s; calls := calls s ++ [c] |}).

(** Awaiting a promise, or calling a function that may throw. *)
Definition settle {A} (r : Exn + A) : M A :=
  match r with
  | inl e => throw e
  | inr a => mret a
  end.

(** ** The database and the store *)

(** [db.allowances.where("host").equalsIgnoreCase(h).first()] on the rows in
    the order the collection yields them. *)
Definition first_equalsIgnoreCase (h : string) (rows : list Allowance)
  : option Allowance :=
  List.find (λ a, JsString.equalsIgnoreCase (allowance_host a) h) rows.

(** [db.allowances.update(key, { lnurlAuth: true })] on one row. *)
Definition update_row (key : Z) (a : Allowance) : Allowance :=
  if bool_decide (id a = Some key)
  then {| id := id a; allowance_host := allowance_host a;
          enabled := enabled a; lnurlAuth := true |}
  else a.

Definition db_first (h : string) : M (option Allowance) :=
  log (db_allowances_first h);;
  gets (λ s, first_equalsIgnoreCase h (allowances s)).

Definition db_update (key : Z) : M unit :=
  log (db_allowances_update key true);;
  modify (λ s, {| heap := heap s; allowances := update_row key <$> allowances s;
                  storage := storage s; calls := calls s |}).

Definition db_save : M unit :=
  log db_saveToStorage;;
  modify (λ s, {| heap := heap s; allowances := allowances s;
                  storage := allowances s; calls := calls s |}).

(** A reference of a running program always points to an object; so that the
    model is total, following a reference the store does not hold throws the
    [TypeError] of a property access on [undefined]. *)
Definition TypeError_undefined : Exn :=
  Error "Cannot read properties of undefined".

Definition deref (l : loc) : M URL :=
  o ← gets (λ s, heap s !! l);
  match o with
  | Some u => mret u
  | None => throw TypeError_undefined
  end.

(** [l.searchParams.set(name, value)]: the object at [l] is changed in place. *)
Definition searchParams_set (l : loc) (name value : string) : M unit :=
  u ← deref l;
  modify (λ s, {| heap := <[l := URL_set name value u]> (heap s);
                  allowances := allowances s; storage := storage s;
                  calls := calls s |}).

Definition LNURLAUTH_CANONICAL_PHRASE : string :=
  "DO NOT EVER SIGN THIS TEXT WITH YOUR PRIVATE KEYS! IT IS ONLY USED FOR DERIVATION OF LNURL-AUTH HASHING-KEY, DISCLOSING ITS SIGNATURE WILL COMPROMISE YOUR LNURL-AUTH IDENTITY AND MAY LEAD TO LOSS OF FUNDS!".

(** [allowance?.id] as a condition: present and not [0]. *)
Definition truthy_id (a : option Allowance) : option Z :=
  match a with
  | Some r => match id r with
              | Some k => if bool_decide (k = 0) then None else Some k
              | None => None
              end
  | None => None
  end.

(** [allowance && allowance.enabled && allowance.lnurlAuth] *)
Definition auto_login (a : option Allowance) : bool :=
  match a with
  | Some r => enabled r && lnurlAuth r
  | None => false
  end.

(** [authResponse?.data.status.toUpperCase() !== "OK"].  Without a response
    the optional chain gives [undefined], which is not [OK]; with a response
    whose [status] is not a string the call of [toUpperCase] throws a
    [TypeError] (its message is not modelled). *)
Definition status_not_OK (authResponse : option AxiosResponse) : Exn + bool :=
  match authResponse with
  | Some r =>
      match status (data r) with
      | Some t => inr (negb (bool_decide (JsString.toUpperCase t = "OK")))
      | None => inl TypeError_undefined
      end
  | None => inr true
  end.

(** [authResponse?.data?.reason] as the [error] field of the result. *)
Definition reason_value (authResponse : option AxiosResponse) : JsValue :=
  match authResponse with
  | Some r => match reason (data r) with
              | Some t => JsString t
              | None => JsUndefined
              end
  | None => JsUndefined
  end.

(** [e.response?.data?.reason || e.message] *)
Definition reason_or_message (response_reason : option string) (message : string)
  : string :=
  match response_reason with
  | Some r => if JsString.truthy r then r else message
  | None => message
  end.

Section Auth.

Context (L : Libs) (W : Env).

(** *** [auth], lines 116-179 *)

Definition derive_hashingKey (lnSignature : string) : M string :=
  log (crypto_sha256 lnSignature);;
  mret (Hex.stringify (sha256 L lnSignature)).

Definition derive_linkingKeyPriv (h hashingKey : string) : M string :=
  log (crypto_hmacSHA256 h hashingKey);;
  mret (Hex.stringify (hmacSHA256 L h hashingKey)).

(** Lines 164-178: the request and the handler of its failure. *)
Definition dispatch (loginURL : loc) : M (option AxiosResponse) :=
  try_catch
    (u ← deref loginURL;
     log (axios_get (URL_toString L u));;
     authResponse ← settle (axios_get_reply W (URL_toString L u));
     mret (Some authResponse))
    (λ e,
       match e with
       | AxiosError message response_reason =>
           log (console_error e);;
           log (console_log response_reason);;
           throw (Error (reason_or_message response_reason message))
       | Error message => throw (Error message)
       | NonError _ => mret None
       end).

(** Lines 139-149: from the wallet's signature and the host of the
    challenge's URL to [hashingKey] and [linkingKeyPriv]. *)
Definition keyDerivation (lnSignature : string) (lnurlDetails : LNURLDetails)
  : M (string * string) :=
  hashingKey ← derive_hashingKey lnSignature;
  u ← deref (url lnurlDetails);
  if negb (JsString.truthy (host u)) || negb (JsString.truthy hashingKey)
  then throw (Error "Invalid input")
  else
    linkingKeyPriv ← derive_linkingKeyPriv (host u) hashingKey;
    if negb (JsString.truthy hashingKey)
       || negb (JsString.truthy linkingKeyPriv)
    then throw (Error "Invalid hashingKey/linkingKey")
    else mret (hashingKey, linkingKeyPriv).

(** Lines 160-163: [loginURL] is the object [lnurlDetails.url] itself. *)
Definition buildCallback (loginURL : loc) (signedMessageDERHex key : string)
  : M unit :=
  searchParams_set loginURL "sig" signedMessageDERHex;;
  searchParams_set loginURL "key" key;;
  log Date_now;;
  searchParams_set loginURL "t" (JsString.of_Z (now W)).

Definition auth (lnurlDetails : LNURLDetails) : M (option AxiosResponse) :=
  if negb (bool_decide (tag lnurlDetails = "login")) then
    throw (Error ("LNURL-AUTH FAIL: incorrect tag: " +:+ tag lnurlDetails
                  +:+ " was used"))
  else
    log state_getConnector;;
    settle (from_option inl (inr tt) (getConnector W));;
    log (connector_signMessage LNURLAUTH_CANONICAL_PHRASE 0 0);;
    signature ← settle (signMessage W LNURLAUTH_CANONICAL_PHRASE 0 0);
    match signature with
    | None | Some EmptyString => throw (Error "Invalid Signature")
    | Some lnSignature =>
        keys ← keyDerivation lnSignature lnurlDetails;
        let linkingKeyPriv := keys.2 in
        log (HashKeySigner_new linkingKeyPriv);;
        log (utils_hexToUint8Array (k1 lnurlDetails));;
        match hexToUint8Array L (k1 lnurlDetails) with
        | Some bytes =>
            if negb (JsString.truthy (k1 lnurlDetails))
            then throw (Error "Invalid K1")
            else
              log (signer_sign bytes);;
              let signedMessageDERHex := sign_toDER L linkingKeyPriv bytes in
              let loginURL := url lnurlDetails in
              buildCallback loginURL signedMessageDERHex
                (pkHex L linkingKeyPriv);;
              dispatch loginURL
        | None => throw (Error "Invalid K1")
        end
    end.

End Auth.

Section AuthWithPrompt.

Context (L : Libs) (W : Env).

Definition publish (topic : string) (p : Payload) : M unit :=
  log (PubSub_publish topic p).

(** [{ error: e instanceof Error ? e.message : e }] *)
Definition rejection (e : Exn) : JsValue :=
  match e with
  | Error m => JsString m
  | AxiosError m _ => JsString m
  | NonError v => v
  end.

(** Lines 39-46. *)
Definition promptMessage (message : Message) (lnurlDetails : LNURLDetails)
  : PromptMessage :=
  {| prompt_spread := message;
     prompt_type := "lnurlAuth";
     prompt_args_spread := args message;
     prompt_args_lnurlDetails := lnurlDetails |}.

(** Lines 94-106: the allowance is read again and marked. *)
Definition remember_login (h : string) : M unit :=
  allowance ← db_first h;
  match truthy_id allowance with
  | Some key => db_update key
  | None => mret tt
  end;;
  db_save.

(** Lines 59-108: what follows once [loginStatus] is known. *)
Definition perform (message : Message) (h : string)
    (lnurlDetails : LNURLDetails) (loginStatus : LoginStatus)
  : M AuthOutcome :=
  if confirmed loginStatus then
    r ← try_catch
          (authResponse ← auth L W lnurlDetails; mret (inl authResponse))
          (λ e,
             log (console_error e);;
             match instanceof_Error e with
             | Some m =>
                 publish "lnurl.auth.failed"
                   (PFailedError m lnurlDetails (origin message));;
                 mret (inr (OutError (JsString m)))
             | None => mret (inl None)
             end);
    match r with
    | inr out => mret out
    | inl authResponse =>
        (* line 79 is outside the [try]: what it throws leaves the function *)
        notOK ← settle (status_not_OK authResponse);
        if (notOK : bool) then
          publish "lnurl.auth.failed"
            (PFailedResponse authResponse lnurlDetails (origin message));;
          mret (OutError (reason_value authResponse))
        else
          match authResponse with
          | Some response =>
              publish "lnurl.auth.success"
                (PSuccess response lnurlDetails (origin message));;
              (if remember loginStatus then remember_login h else mret tt);;
              mret (OutData (data response))
          | None =>
              (* not reached: without a response line 79 has returned *)
              mret OutUndefined
          end
    end
  else mret OutUndefined.

(** Lines 17-109. *)
Definition authWithPrompt (message : Message) (lnurlDetails : LNURLDetails)
  : M AuthOutcome :=
  match origin_host (origin message) with
  | None => mret OutUndefined
  | Some h =>
      publish "lnurl.auth.start" (PStart message lnurlDetails);;
      allowance ← db_first h;
      log state_getState_password;;
      let isUnlocked := bool_decide (password W ≠ None) in
      r ← (if isUnlocked && auto_login allowance
           then mret (inl {| confirmed := true; remember := true |})
           else
             try_catch
               (log (utils_openPrompt (promptMessage message lnurlDetails));;
                d ← settle (openPrompt W (promptMessage message lnurlDetails));
                mret (inl d))
               (λ e, mret (inr (OutError (rejection e)))));
      match r with
      | inl loginStatus => perform message h lnurlDetails loginStatus
      | inr out => mret out
      end
  end.

End AuthWithPrompt.

(** ** A concrete instance of the libraries

    crypto-js is modelled by the algorithms it implements, SHA-256
    (FIPS 180-4) and HMAC (RFC 2104), on 32-bit words held in [Z]. *)

Module SHA256.

Definition w32 (x : Z) : Z := x mod 2 ^ 32.
Definition add32 (x y : Z) : Z := w32 (x + y).
Definition rotr (n x : Z) : Z :=
  Z.lor (Z.shiftr x n) (w32 (Z.shiftl x (32 - n))).
Definition not32 (x : Z) : Z := Z.lxor x 0xffffffff.
Definition Ch (x y z : Z) : Z := Z.lxor (Z.land x y) (Z.land (not32 x) z).
Definition Maj (x y z : Z) : Z :=
  Z.lxor (Z.lxor (Z.land x y) (Z.land x z)) (Z.land y z).
Definition Sigma0 (x : Z) : Z :=
  Z.lxor (Z.lxor (rotr 2 x) (rotr 13 x)) (rotr 22 x).
Definition Sigma1 (x : Z) : Z :=
  Z.lxor (Z.lxor (rotr 6 x) (rotr 11 x)) (rotr 25 x).
Definition sigma0 (x : Z) : Z :=
  Z.lxor (Z.lxor (rotr 7 x) (rotr 18 x)) (Z.shiftr x 3).
Definition sigma1 (x : Z) : Z :=
  Z.lxor (Z.lxor (rotr 17 x) (rotr 19 x)) (Z.shiftr x 10).

(** crypto-js fills its tables when it loads: the fractional bits of the
    square roots (for [H0]) and of the cube roots (for [K]) of the first
    primes. *)
Definition is_prime (n : nat) : bool :=
  forallb (λ k, negb (Nat.eqb (n mod k) 0)) (List.seq 2 (n - 2)).

Definition primes : list Z :=
  List.map Z.of_nat (List.filter is_prime (List.seq 2 310)).

(** The integer cube root, one bit at a time from bit [bits - 1] down. *)
Fixpoint cube_root (bits : nat) (n r : Z) : Z :=
  match bits with
  | O => r
  | S b =>
      let r' := r + 2 ^ Z.of_nat b in
      cube_root b n (if (r' * r' * r' <=? n)%Z then r' else r)
  end.

Definition K : list Z :=
  List.map (λ p, w32 (cube_root 35 (p * 2 ^ 96) 0)) primes.

Definition H0 : list Z :=
  List.map (λ p, w32 (Z.sqrt (p * 2 ^ 64))) (List.firstn 8 primes).

Definition be_bytes (n : nat) (x : Z) : list Z :=
  List.map (λ i, Z.shiftr x (8 * Z.of_nat i) mod 256) (List.rev (List.seq 0 n)).

(** A [1] bit, zeros up to 56 modulo 64, then the bit length on 8 bytes. *)
Definition pad (msg : list Z) : list Z :=
  let len := Z.of_nat (List.length msg) in
  msg ++ [0x80] ++ List.repeat 0 (Z.to_nat ((55 - len) mod 64))
      ++ be_bytes 8 (8 * len).

Fixpoint words (fuel : nat) (bytes : list Z) : list Z :=
  match fuel, bytes with
  | S f, a :: b :: c :: d :: more =>
      (Z.shiftl a 24 + Z.shiftl b 16 + Z.shiftl c 8 + d) :: words f more
  | _, _ => []
  end.

(** The message schedule, most recent word first. *)
Fixpoint schedule (n : nat) (recent : list Z) : list Z :=
  match n with
  | O => recent
  | S m =>
      schedule m
        (add32 (add32 (sigma1 (List.nth 1 recent 0)) (List.nth 6 recent 0))
               (add32 (sigma0 (List.nth 14 recent 0)) (List.nth 15 recent 0))
         :: recent)
  end.

Definition round (st : list Z) (kw : Z * Z) : list Z :=
  match st with
  | [a; b; c; d; e; f; g; h] =>
      let t1 := add32 (add32 (add32 h (Sigma1 e)) (add32 (Ch e f g) kw.1)) kw.2 in
      let t2 := add32 (Sigma0 a) (Maj a b c) in
      [add32 t1 t2; a; b; c; add32 d t1; e; f; g]
  | _ => st
  end.

Definition compress (st block : list Z) : list Z :=
  let w := List.rev (schedule 48 (List.rev block)) in
  let st' := List.fold_left round (List.combine K w) st in
  List.map (λ p, add32 p.1 p.2) (List.combine st st').

Fixpoint blocks (fuel : nat) (ws st : list Z) : list Z :=
  match fuel with
  | O => st
  | S f =>
      match ws with
      | [] => st
      | _ => blocks f (List.skipn 16 ws) (compress st (List.firstn 16 ws))
      end
  end.

Definition digest (msg : list Z) : list Z :=
  let p := pad msg in
  let ws := words (List.length p) p in
  List.flat_map (be_bytes 4) (blocks (List.length ws) ws H0).

End SHA256.

Module HMAC.

Definition block_key (key : list Z) : list Z :=
  let k := if (64 <? List.length key)%nat then SHA256.digest key else key in
  k ++ List.repeat 0 (64 - List.length k)%nat.

Definition hmac (key msg : list Z) : list Z :=
  let k := block_key key in
  SHA256.digest (List.map (Z.lxor 0x5c) k
                 ++ SHA256.digest (List.map (Z.lxor 0x36) k ++ msg)).

End HMAC.

Module CryptoJS.

(** A string is hashed through its bytes ([Utf8.parse]). *)
Definition parse (s : string) : list Z :=
  List.map (λ b, Z.of_N (Byte.to_N b)) (String.list_byte_of_string s).

Definition to_byte (z : Z) : Byte.byte :=
  default Byte.x00 (Byte.of_N (Z.to_N (z mod 256))).

Definition sha256 (message : string) : list Byte.byte :=
  List.map to_byte (SHA256.digest (parse message)).

(** [hmacSHA256(message, key)]: the message comes first. *)
Definition hmacSHA256 (message key : string) : list Byte.byte :=
  List.map to_byte (HMAC.hmac (parse key) (parse message)).

End CryptoJS.

Module Sample.

Definition hex_value (c : ascii) : option N :=
  let n := Ascii.N_of_ascii c in
  if ((48 <=? n) && (n <=? 57))%N then Some (n - 48)%N
  else if ((97 <=? n) && (n <=? 102))%N then Some (n - 87)%N
  else if ((65 <=? n) && (n <=? 70))%N then Some (n - 55)%N
  else None.

Fixpoint hex_pairs (s : string) : option (list Byte.byte) :=
  match s with
  | EmptyString => Some []
  | String _ EmptyString => None
  | String a (String b more) =>
      hi ← hex_value a;
      lo ← hex_value b;
      tail ← hex_pairs more;
      Some (default Byte.x00 (Byte.of_N (16 * hi + lo)) :: tail)
  end.

(** Modelled from the spec: [utils.hexToUint8Array] of
    [common/lib/utils], of which the spec says that [k1] must be a
    hex-decodable byte sequence and that a missing or malformed one is
    refused. *)
Definition hexToUint8Array (hexString : string) : option (list Byte.byte) :=
  match hexString with
  | EmptyString => None
  | _ => hex_pairs hexString
  end.

(** Modelled from the spec: [HashKeySigner] of [common/utils/signer], a
    deterministic signature over [k1] under the linking key, rendered as
    hex.  The curve arithmetic is outside this development: a keyed digest
    stands in its place, which is deterministic in the key and the message
    as the spec requires. *)
Definition sign_toDER (keyHex : string) (message : list Byte.byte) : string :=
  Hex.stringify (CryptoJS.hmacSHA256 (Hex.stringify message) keyHex).

(** Modelled from the spec: the compressed public key of [HashKeySigner],
    a hex string determined by the private key; a digest stands in the
    place of the point multiplication. *)
Definition pkHex (keyHex : string) : string :=
  "02" +:+ Hex.stringify (CryptoJS.sha256 keyHex).

Fixpoint query (l : list (string * string)) : string :=
  match l with
  | [] => ""
  | [(n, v)] => n +:+ "=" +:+ v
  | (n, v) :: more => n +:+ "=" +:+ v +:+ "&" +:+ query more
  end.

(** [url.toString()] for components that need no percent-encoding. *)
Definition URL_toString (u : URL) : string :=
  protocol u +:+ "//" +:+ host u +:+ pathname u
  +:+ match searchParams u with [] => "" | l => "?" +:+ query l end
  +:+ hash u.

Definition libs : Libs :=
  mkLibs CryptoJS.sha256 CryptoJS.hmacSHA256 hexToUint8Array sign_toDER pkHex
         URL_toString.

End Sample.

(** ** Observing a run *)

(** The calls made between two states of one run. *)
Definition made (s s' : State) : list Call :=
  drop (length (calls s)) (calls s').

(** [s] with further calls on its log. *)
Definition logged (cs : list Call) (s : State) : State :=
  {| heap := heap s; allowances := allowances s; storage := storage s;
     calls := calls s ++ cs |}.

(** [s] with the object at [l] replaced. *)
Definition store (l : loc) (u : URL) (s : State) : State :=
  {| heap := <[l := u]> (heap s); allowances := allowances s;
     storage := storage s; calls := calls s |}.

(** [s] with [rows] as the table and as its persisted copy. *)
Definition committed (rows : list Allowance) (s : State) : State :=
  {| heap := heap s; allowances := rows; storage := rows; calls := calls s |}.

Definition is_failed (c : Call) : bool :=
  match c with
  | PubSub_publish topic _ => bool_decide (topic = "lnurl.auth.failed")
  | _ => false
  end.

Definition is_success (c : Call) : bool :=
  match c with
  | PubSub_publish topic _ => bool_decide (topic = "lnurl.auth.success")
  | _ => false
  end.

Definition is_prompt (c : Call) : bool :=
  match c with utils_openPrompt _ => true | _ => false end.

(** The wallet's signing capability: fetching the connector, asking it to
    sign. *)
Definition is_signing_backend (c : Call) : bool :=
  match c with
  | state_getConnector | connector_signMessage _ _ _ => true
  | _ => false
  end.

(** Key derivation: the two digests and the signer built from them. *)
Definition is_derivation (c : Call) : bool :=
  match c with
  | crypto_sha256 _ | crypto_hmacSHA256 _ _ | HashKeySigner_new _ => true
  | _ => false
  end.

Definition is_signature (c : Call) : bool :=
  match c with signer_sign _ => true | _ => false end.

Definition is_dispatch (c : Call) : bool :=
  match c with axios_get _ => true | _ => false end.

(** What [auth] may call before it sends the request. *)
Definition before_dispatch (c : Call) : bool :=
  match c with
  | state_getConnector | connector_signMessage _ _ _
  | crypto_sha256 _ | crypto_hmacSHA256 _ _ | HashKeySigner_new _
  | utils_hexToUint8Array _ => true
  | _ => false
  end.

Definition is_update (c : Call) : bool :=
  match c with db_allowances_update _ _ => true | _ => false end.

Definition is_flush (c : Call) : bool :=
  match c with db_saveToStorage => true | _ => false end.

(** Cryptographic work or traffic of any kind. *)
Definition is_crypto_or_dispatch (c : Call) : bool :=
  is_signing_backend c || is_derivation c || is_signature c || is_dispatch c.

(** How often calls of one kind occur. *)
Definition count (kind : Call → bool) (cs : list Call) : nat :=
  length (List.filter kind cs).

(** [isUnlocked], line 30. *)
Definition isUnlocked (W : Env) : bool := bool_decide (password W ≠ None).

(** The three calls every run with a host starts with. *)
Definition prelude (message : Message) (lnurlDetails : LNURLDetails) (h : string)
  : list Call :=
  [PubSub_publish "lnurl.auth.start" (PStart message lnurlDetails);
   db_allowances_first h;
   state_getState_password].

(** The three names the callback carries, and the pairs of other names. *)
Definition is_added (name : string) : bool :=
  bool_decide (name = "sig") || bool_decide (name = "key")
  || bool_decide (name = "t").

Definition kept (p : string * string) : bool := negb (is_added p.1).

(** The URL lines 160-163 leave in the store. *)
Definition callback (u : URL) (signedMessageDERHex key t : string) : URL :=
  URL_set "t" t (URL_set "key" key (URL_set "sig" signedMessageDERHex u)).

(** The key material as the spec words it: the hex of SHA-256 of the
    signature, and the hex of HMAC-SHA256 keyed with it over the host. *)
Definition spec_hashingKey (L : Libs) (signature : string) : string :=
  Hex.stringify (sha256 L signature).

Definition spec_linkingPrivateKey (L : Libs) (signature h : string) : string :=
  Hex.stringify (hmacSHA256 L h (spec_hashingKey L signature)).

(** The calls of a run of [auth] that gets as far as sending the request. *)
Definition calls_to_dispatch (L : Libs) (signature h k : string)
    (bytes : list Byte.byte) : list Call :=
  [state_getConnector;
   connector_signMessage LNURLAUTH_CANONICAL_PHRASE 0 0;
   crypto_sha256 signature;
   crypto_hmacSHA256 h (spec_hashingKey L signature);
   HashKeySigner_new (spec_linkingPrivateKey L signature h);
   utils_hexToUint8Array k;
   signer_sign bytes;
   Date_now].

(** The callback URL of such a run. *)
Definition callback_of (L : Libs) (W : Env) (u : URL) (signature : string)
    (bytes : list Byte.byte) : URL :=
  callback u
    (sign_toDER L (spec_linkingPrivateKey L signature (host u)) bytes)
    (pkHex L (spec_linkingPrivateKey L signature (host u)))
    (JsString.of_Z (now W)).

(** The state lines 95-106 leave: the row found for [h], if it has an id, is
    marked, and the table is persisted. *)
Definition remembered (h : string) (s : State) : State :=
  match truthy_id (first_equalsIgnoreCase h (allowances s)) with
  | Some key =>
      committed (update_row key <$> allowances s)
        (logged [db_allowances_first h; db_allowances_update key true;
                 db_saveToStorage] s)
  | None =>
      committed (allowances s)
        (logged [db_allowances_first h; db_saveToStorage] s)
  end.

Definition failed_error (m : string) (message : Message)
    (lnurlDetails : LNURLDetails) : Call :=
  PubSub_publish "lnurl.auth.failed"
    (PFailedError m lnurlDetails (origin message)).

Definition failed_response (r : option AxiosResponse) (message : Message)
    (lnurlDetails : LNURLDetails) : Call :=
  PubSub_publish "lnurl.auth.failed"
    (PFailedResponse r lnurlDetails (origin message)).

Definition succeeded (r : AxiosResponse) (message : Message)
    (lnurlDetails : LNURLDetails) : Call :=
  PubSub_publish "lnurl.auth.success" (PSuccess r lnurlDetails (origin message)).

(** The failure reason as the spec words it: the server's [reason] field
    when present, else the transport error's message. *)
Definition spec_server_reason (reply : Exn + AxiosResponse) : option string :=
  match reply with
  | inr response => reason (data response)
  | inl (AxiosError _ response_reason) => response_reason
  | inl _ => None
  end.

Definition spec_transport_message (reply : Exn + AxiosResponse)
  : option string :=
  match reply with
  | inl (AxiosError m _) | inl (Error m) => Some m
  | _ => None
  end.

Definition spec_failure_reason (reply : Exn + AxiosResponse) (error : JsValue)
  : Prop :=
  match spec_server_reason reply with
  | Some t => error = JsString t
  | None => ∃ m, spec_transport_message reply = Some m ∧ error = JsString m
  end.

(** *** The runs of [authWithPrompt], case by case *)

(** The consent gate of lines 35-57: the decision, or the reason of the
    rejection, with the calls made to obtain it. *)
Definition consent (W : Env) (message : Message) (lnurlDetails : LNURLDetails)
    (allowance : option Allowance) : (Exn + LoginStatus) * list Call :=
  if isUnlocked W && auto_login allowance
  then (inr {| confirmed := true; remember := true |}, [])
  else (openPrompt W (promptMessage message lnurlDetails),
        [utils_openPrompt (promptMessage message lnurlDetails)]).

(** What lines 65-86 make of an exception of [auth]: the result and the
    calls. *)
Definition caught (message : Message) (lnurlDetails : LNURLDetails) (e : Exn)
  : AuthOutcome * list Call :=
  match instanceof_Error e with
  | Some m =>
      (OutError (JsString m),
       [console_error e; failed_error m message lnurlDetails])
  | None =>
      (OutError JsUndefined,
       [console_error e; failed_response None message lnurlDetails])
  end.

(** How a run ends once the request [href] is sent from state [s1],
    according to what axios answers. *)
Definition conclude (message : Message) (lnurlDetails : LNURLDetails)
    (h : string) (loginStatus : LoginStatus) (href : string)
    (reply : Exn + AxiosResponse) (s1 : State) : Result AuthOutcome * State :=
  match reply with
  | inr response =>
      match status (data response) with
      | None => (Throw TypeError_undefined, logged [axios_get href] s1)
      | Some t =>
          if bool_decide (JsString.toUpperCase t = "OK")
          then
            (Ok (OutData (data response)),
             if remember loginStatus
             then remembered h
                    (logged [axios_get href;
                             succeeded response message lnurlDetails] s1)
             else logged [axios_get href;
                          succeeded response message lnurlDetails] s1)
          else
            (Ok (OutError (reason_value (Some response))),
             logged [axios_get href;
                     failed_response (Some response) message lnurlDetails] s1)
      end
  | inl (AxiosError m r) =>
      (Ok (OutError (JsString (reason_or_message r m))),
       logged [axios_get href; console_error (AxiosError m r); console_log r;
               console_error (Error (reason_or_message r m));
               failed_error (reason_or_message r m) message lnurlDetails] s1)
  | inl (Error m) =>
      (Ok (OutError (JsString m)),
       logged [axios_get href; console_error (Error m);
               failed_error m message lnurlDetails] s1)
  | inl (NonError _) =>
      (Ok (OutError JsUndefined),
       logged [axios_get href; failed_response None message lnurlDetails] s1)
  end.

(** The five ways a run of [authWithPrompt] from [s] can go. *)
Inductive Run (L : Libs) (W : Env) (message : Message)
    (lnurlDetails : LNURLDetails) (s : State)
  : Result AuthOutcome * State → Prop :=
| Run_internal :
    origin_host (origin message) = None →
    Run L W message lnurlDetails s (Ok OutUndefined, s)
| Run_rejected h e cs :
    origin_host (origin message) = Some h →
    consent W message lnurlDetails
      (first_equalsIgnoreCase h (allowances s)) = (inl e, cs) →
    Run L W message lnurlDetails s
      (Ok (OutError (rejection e)),
       logged (prelude message lnurlDetails h ++ cs) s)
| Run_declined h loginStatus cs :
    origin_host (origin message) = Some h →
    consent W message lnurlDetails
      (first_equalsIgnoreCase h (allowances s)) = (inr loginStatus, cs) →
    confirmed loginStatus = false →
    Run L W message lnurlDetails s
      (Ok OutUndefined, logged (prelude message lnurlDetails h ++ cs) s)
| Run_thrown h loginStatus cs e pre :
    origin_host (origin message) = Some h →
    consent W message lnurlDetails
      (first_equalsIgnoreCase h (allowances s)) = (inr loginStatus, cs) →
    confirmed loginStatus = true →
    auth L W lnurlDetails (logged (prelude message lnurlDetails h ++ cs) s)
    = (Throw e, logged (prelude message lnurlDetails h ++ cs ++ pre) s) →
    forallb before_dispatch pre = true →
    Run L W message lnurlDetails s
      (Ok (caught message lnurlDetails e).1,
       logged (prelude message lnurlDetails h ++ cs ++ pre
               ++ (caught message lnurlDetails e).2) s)
| Run_dispatched h loginStatus cs u signature bytes :
    origin_host (origin message) = Some h →
    consent W message lnurlDetails
      (first_equalsIgnoreCase h (allowances s)) = (inr loginStatus, cs) →
    confirmed loginStatus = true →
    tag lnurlDetails = "login" →
    getConnector W = None →
    signMessage W LNURLAUTH_CANONICAL_PHRASE 0 0 = inr (Some signature) →
    heap s !! url lnurlDetails = Some u →
    hexToUint8Array L (k1 lnurlDetails) = Some bytes →
    Run L W message lnurlDetails s
      (conclude message lnurlDetails h loginStatus
         (URL_toString L (callback_of L W u signature bytes))
         (axios_get_reply W (URL_toString L (callback_of L W u signature bytes)))
         (logged (prelude message lnurlDetails h ++ cs
                  ++ calls_to_dispatch L signature (host u) (k1 lnurlDetails)
                       bytes)
            (store (url lnurlDetails) (callback_of L W u signature bytes) s))).

(** ** A sample run: the service of the spec's example *)

Module Scenario.

Definition serviceURL : URL :=
  {| protocol := "https:"; host := "svc.example"; pathname := "/login";
     searchParams := [("tag", "login"); ("k1", "ab12")]; hash := "" |}.

Definition lnurlDetails : LNURLDetails :=
  {| tag := "login"; k1 := "ab12"; url := 1%positive |}.

Definition message : Message :=
  {| origin := {| origin_host := Some "Svc.Example" |};
     args := []; rest := [] |}.

Definition internal : Message :=
  {| origin := {| origin_host := None |}; args := []; rest := [] |}.

Definition trusted : Allowance :=
  {| id := Some 7; allowance_host := "svc.example";
     enabled := true; lnurlAuth := true |}.

Definition enabled_only : Allowance :=
  {| id := Some 7; allowance_host := "svc.example";
     enabled := true; lnurlAuth := false |}.

Definition start (rows : list Allowance) : State :=
  {| heap := {[ 1%positive := serviceURL ]};
     allowances := rows; storage := []; calls := [] |}.

Definition yes_remember : LoginStatus := {| confirmed := true; remember := true |}.
Definition declined : LoginStatus := {| confirmed := false; remember := false |}.

Definition answer (st : string) (r : option string) : Exn + AxiosResponse :=
  inr {| data := {| status := Some st; reason := r |} |}.

(** A wallet that signs, a prompt that answers [decision], a service that
    answers [reply]. *)
Definition world (pw : option string) (decision : Exn + LoginStatus)
    (reply : Exn + AxiosResponse) : Env :=
  {| password := pw;
     openPrompt := λ _, decision;
     getConnector := None;
     signMessage := λ _ _ _, inr (Some "d0c0ffee");
     axios_get_reply := λ _, reply;
     now := 1700000000000 |}.

(** An unlocked wallet, a prompt that confirms and asks to remember. *)
Definition consenting (reply : Exn + AxiosResponse) : Env :=
  world (Some "secret") (inr yes_remember) reply.

(** An unlocked wallet and a prompt that is rejected. *)
Definition rejecting : Env :=
  world (Some "secret") (inl (Error "User rejected")) (answer "OK" None).

Definition status_400 : string := "Request failed with status code 400".

(** A locked wallet and a prompt that is declined. *)
Definition idle : Env := world None (inr declined) (answer "OK" None).

End Scenario.

(** ** More observations on [auth] and [authWithPrompt] *)

Definition is_start (c : Call) : bool :=
  match c with
  | PubSub_publish topic _ => bool_decide (topic = "lnurl.auth.start")
  | _ => false
  end.

Definition is_signMessage (c : Call) : bool :=
  match c with connector_signMessage _ _ _ => true | _ => false end.

(** What a run may do to a row of the table: mark it, and nothing else. *)
Definition marked_or_same (before after : Allowance) : Prop :=
  id after = id before
  ∧ allowance_host after = allowance_host before
  ∧ enabled after = enabled before
  ∧ (lnurlAuth before = true → lnurlAuth after = true).

(** * The "Connect With Alby" button

    The second file of the source, the React component [ConnectAlby].  Its
    state is the [loading] flag of [useState]; what it asks of the
    background script, of the router, of the toaster and of the console is
    logged. *)

Module ConnectAlby.

(** [{ name, config, connector }]; [config] as its list of properties. *)
Record Account := mkAccount {
  name : string;
  config : list (string * string);
  connector : string
}.

(** The answer to [validateAccount], as far as the component reads it:
    [valid], [oAuthToken], [(info as { data: WebLNNode }).data.alias] and
    [error].  The [info] is taken to have the shape the cast gives it. *)
Record Validation := mkValidation {
  valid : bool;
  oAuthToken : option string;
  info_data_alias : string;
  error : option string
}.

(** The answer to [addAccount]. *)
Record AddResult := mkAddResult {
  accountId : option string
}.

Inductive Request :=
| validateAccount (account : Account)
| addAccount (account : Account)
| selectAccount (id : string).

Inductive UICall :=
| setLoading (b : bool)
| msg_request (r : Request)
| navigate (path : string)
| toast_error (text : string)
| console_error_validation (validation : Validation)
| console_error_exn (e : Exn).

(** The props, the translations and the background script's answers. *)
Record World := mkWorld {
  fromWelcome : bool;
  tCommon : string → string;
  answer_validateAccount : Account → Exn + Validation;
  answer_addAccount : Account → Exn + AddResult;
  answer_selectAccount : string → Exn + unit
}.

Record View := mkView {
  loading : bool;
  trace : list UICall
}.

Definition UI (A : Type) : Type := View → Result A * View.

#[global] Instance UI_ret : MRet UI := λ A a v, (Ok a, v).

#[global] Instance UI_bind : MBind UI := λ A B f m v,
  match m v with
  | (Ok a, v') => f a v'
  | (Throw e, v') => (Throw e, v')
  end.

Definition raise {A} (e : Exn) : UI A := λ v, (Throw e, v).

Definition attempt {A} (body : UI A) (handler : Exn → UI A) : UI A := λ v,
  match body v with
  | (Ok a, v') => (Ok a, v')
  | (Throw e, v') => handler e v'
  end.

Definition emit (c : UICall) : UI unit := λ v,
  (Ok tt, {| loading := loading v; trace := trace v ++ [c] |}).

(** [setLoading(b)] *)
Definition set_loading (b : bool) : UI unit := λ v,
  (Ok tt, {| loading := b; trace := trace v ++ [setLoading b] |}).

(** [await msg.request(...)] *)
Definition request {A} (r : Request) (answer : Exn + A) : UI A :=
  emit (msg_request r);;
  match answer with
  | inl e => raise e
  | inr a => mret a
  end.

(** A value inside a template literal. *)
Definition template (o : option string) : string :=
  match o with
  | Some t => t
  | None => "undefined"
  end.

(** A string that is present and not empty. *)
Definition truthy_string (o : option string) : option string :=
  match o with
  | Some t => if JsString.truthy t then Some t else None
  | None => None
  end.

Definition initialAccount : Account :=
  {| name := "Alby"; config := []; connector := "alby" |}.

(** Lines 215-222 of the component. *)
Definition account_of (validation : Validation) (token : string) : Account :=
  {| name := info_data_alias validation;
     config := config initialAccount ++ [("oAuthToken", token)];
     connector := connector initialAccount |}.

Definition connection_failed (W : World) (detail : string) : string :=
  tCommon W "errors.connection_failed" +:+ " (" +:+ detail +:+ ")".

(** [connectAlby], lines 198-250. *)
Definition connectAlby (W : World) : UI unit :=
  set_loading true;;
  attempt
    (validation ← request (validateAccount initialAccount)
                    (answer_validateAccount W initialAccount);
     if valid validation then
       match truthy_string (oAuthToken validation) with
       | None =>
           set_loading false;;
           raise (Error "No oAuthToken returned")
       | Some token =>
           addResult ← request (addAccount (account_of validation token))
                         (answer_addAccount W (account_of validation token));
           match truthy_string (accountId addResult) with
           | Some id =>
               request (selectAccount id) (answer_selectAccount W id);;
               if fromWelcome W
               then emit (navigate "/pin-extension")
               else emit (navigate "/discover")
           | None => mret tt
           end;;
           set_loading false
       end
     else
       set_loading false;;
       emit (console_error_validation validation);;
       emit (toast_error (connection_failed W (template (error validation)))))
    (λ e,
       set_loading false;;
       emit (console_error_exn e);;
       match instanceof_Error e with
       | Some m => emit (toast_error (connection_failed W m))
       | None => mret tt
       end).

(** The button as rendered from the state, lines 253-262. *)
Record ButtonProps := mkButtonProps {
  label : string;
  button_loading : bool;
  disabled : bool
}.

Definition render (v : View) : ButtonProps :=
  {| label := "Connect With Alby";
     button_loading := loading v;
     disabled := loading v |}.

(** The calls made between two states of the component. *)
Definition shown (v v' : View) : list UICall :=
  drop (length (trace v)) (trace v').

Definition is_navigate (c : UICall) : bool :=
  match c with navigate _ => true | _ => false end.

Definition is_toast (c : UICall) : bool :=
  match c with toast_error _ => true | _ => false end.

Definition is_request (c : UICall) : bool :=
  match c with msg_request _ => true | _ => false end.

(** The whole of what a run of [connectAlby] can show, by the answers. *)
Definition expected (W : World) : list UICall :=
  [setLoading true; msg_request (validateAccount initialAccount)]
  ++ match answer_validateAccount W initialAccount with
     | inl e =>
         [setLoading false; console_error_exn e]
         ++ match instanceof_Error e with
            | Some m => [toast_error (connection_failed W m)]
            | None => []
            end
     | inr validation =>
         if valid validation then
           match truthy_string (oAuthToken validation) with
           | None =>
               [setLoading false; setLoading false;
                console_error_exn (Error "No oAuthToken returned");
                toast_error (connection_failed W "No oAuthToken returned")]
           | Some token =>
               msg_request (addAccount (account_of validation token))
               :: match answer_addAccount W (account_of validation token) with
                  | inl e =>
                      [setLoading false; console_error_exn e]
                      ++ match instanceof_Error e with
                         | Some m => [toast_error (connection_failed W m)]
                         | None => []
                         end
                  | inr addResult =>
                      match truthy_string (accountId addResult) with
                      | None => [setLoading false]
                      | Some id =>
                          msg_request (selectAccount id)
                          :: match answer_selectAccount W id with
                             | inl e =>
                                 [setLoading false; console_error_exn e]
                                 ++ match instanceof_Error e with
                                    | Some m =>
                                        [toast_error (connection_failed W m)]
                                    | None => []
                                    end
                             | inr _ =>
                                 [navigate (if fromWelcome W
                                            then "/pin-extension"
                                            else "/discover");
                                  setLoading false]
                             end
                      end
                  end
           end
         else
           [setLoading false; console_error_validation validation;
            toast_error (connection_failed W (template (error validation)))]
     end.

(** A world where validation and addition answer as given. *)
Definition answering (validation : Validation) (added : AddResult) : World :=
  {| fromWelcome := false;
     tCommon := λ key, "Connection failed";
     answer_validateAccount := λ _, inr validation;
     answer_addAccount := λ _, inr added;
     answer_selectAccount := λ _, inr tt |}.

Definition no_token : Validation :=
  {| valid := true; oAuthToken := Some ""; info_data_alias := "node";
     error := None |}.

Definition with_token : Validation :=
  {| valid := true; oAuthToken := Some "token"; info_data_alias := "node";
     error := None |}.

Definition refused : Validation :=
  {| valid := false; oAuthToken := None; info_data_alias := ""; error := None |}.

(** A sample world: the wallet validates with a token, the account is
    added under id [acc1] and selected. *)
Definition happy (welcome : bool) : World :=
  {| fromWelcome := welcome;
     tCommon := λ key, "Connection failed";
     answer_validateAccount := λ _, inr with_token;
     answer_addAccount := λ _, inr {| accountId := Some "acc1" |};
     answer_selectAccount := λ _, inr tt |}.

Definition idle_view : View := {| loading := false; trace := [] |}.

End ConnectAlby.

(** * Running the programs *)

Lemma logged_logged cs1 cs2 s : logged cs2 (logged cs1 s) = logged (cs1 ++ cs2) s.
Proof. unfold logged; cbn. by rewrite app_assoc. Qed.

Lemma logged_nil s : logged [] s = s.
Proof. destruct s; unfold logged; cbn. by rewrite app_nil_r. Qed.

Lemma made_logged cs s : made s (logged cs s) = cs.
Proof. unfold made, logged; cbn. by rewrite drop_app_length. Qed.

Lemma bind_run {A B} (m : M A) (f : A → M B) s :
  ((m ≫= f) : M B) s =
  match m s with
  | (Ok a, s') => f a s'
  | (Throw e, s') => (Throw e, s')
  end.
Proof. reflexivity. Qed.

Lemma log_run c s : log c s = (Ok tt, logged [c] s).
Proof. reflexivity. Qed.

Lemma deref_run l s :
  deref l s =
  match heap s !! l with
  | Some u => (Ok u, s)
  | None => (Throw TypeError_undefined, s)
  end.
Proof. unfold deref. rewrite bind_run. cbn. by destruct (heap s !! l). Qed.

Lemma ret_run {A} (a : A) s : (mret a : M A) s = (Ok a, s).
Proof. reflexivity. Qed.

Lemma throw_run {A} e s : throw (A:=A) e s = (Throw e, s).
Proof. reflexivity. Qed.

Ltac run :=
  repeat first
    [ rewrite bind_run
    | rewrite log_run
    | rewrite ret_run
    | rewrite throw_run
    | rewrite logged_logged
    | progress cbn beta iota zeta
    | progress cbn [app fst snd] ].

Section Runs.

Context (L : Libs) (W : Env).

Lemma keyDerivation_run lnSignature d s :
  keyDerivation L lnSignature d s =
  let hashingKey := Hex.stringify (sha256 L lnSignature) in
  match heap s !! url d with
  | None => (Throw TypeError_undefined, logged [crypto_sha256 lnSignature] s)
  | Some u =>
      let linkingKeyPriv := Hex.stringify (hmacSHA256 L (host u) hashingKey) in
      if negb (JsString.truthy (host u)) || negb (JsString.truthy hashingKey)
      then (Throw (Error "Invalid input"), logged [crypto_sha256 lnSignature] s)
      else if negb (JsString.truthy hashingKey)
              || negb (JsString.truthy linkingKeyPriv)
      then (Throw (Error "Invalid hashingKey/linkingKey"),
            logged [crypto_sha256 lnSignature;
                    crypto_hmacSHA256 (host u) hashingKey] s)
      else (Ok (hashingKey, linkingKeyPriv),
            logged [crypto_sha256 lnSignature;
                    crypto_hmacSHA256 (host u) hashingKey] s)
  end.
Proof.
  unfold keyDerivation, derive_hashingKey, derive_linkingKeyPriv.
  run. rewrite deref_run. cbn [heap logged].
  destruct (heap s !! url d) as [u|]; [|done].
  cbn zeta.
  destruct (negb (JsString.truthy (host u)) || _); [done|].
  run.
  destruct (negb _ || negb _); done.
Qed.

End Runs.

Lemma store_logged l u cs s : store l u (logged cs s) = logged cs (store l u s).
Proof. reflexivity. Qed.

Lemma store_store l u1 u2 s : store l u2 (store l u1 s) = store l u2 s.
Proof. unfold store; cbn. by rewrite insert_insert_eq. Qed.

Lemma lookup_store l u s : heap (store l u s) !! l = Some u.
Proof. cbn. apply lookup_insert_eq. Qed.

Lemma searchParams_set_run l name value s :
  searchParams_set l name value s =
  match heap s !! l with
  | Some u => (Ok tt, store l (URL_set name value u) s)
  | None => (Throw TypeError_undefined, s)
  end.
Proof.
  unfold searchParams_set. rewrite bind_run, deref_run.
  by destruct (heap s !! l).
Qed.

Section Runs2.

Context (L : Libs) (W : Env).

Lemma buildCallback_run l sg key s u :
  heap s !! l = Some u →
  buildCallback W l sg key s =
  (Ok tt, logged [Date_now] (store l (callback u sg key (JsString.of_Z (now W))) s)).
Proof.
  intros Hu. unfold buildCallback.
  rewrite bind_run, searchParams_set_run, Hu.
  rewrite bind_run, searchParams_set_run, lookup_store, store_store.
  run. rewrite searchParams_set_run. cbn [heap logged].
  by rewrite lookup_store, store_logged, store_store.
Qed.

Lemma dispatch_run l s u :
  heap s !! l = Some u →
  dispatch L W l s =
  let href := URL_toString L u in
  match axios_get_reply W href with
  | inr response => (Ok (Some response), logged [axios_get href] s)
  | inl (AxiosError message response_reason) =>
      (Throw (Error (reason_or_message response_reason message)),
       logged [axios_get href;
               console_error (AxiosError message response_reason);
               console_log response_reason] s)
  | inl (Error message) => (Throw (Error message), logged [axios_get href] s)
  | inl (NonError _) => (Ok None, logged [axios_get href] s)
  end.
Proof.
  intros Hu. unfold dispatch, try_catch.
  rewrite bind_run, deref_run, Hu. run.
  destruct (axios_get_reply W (URL_toString L u)) as [[m|m r|v]|resp];
    cbn [settle]; run; reflexivity.
Qed.

End Runs2.

Section Runs3.

Context (L : Libs) (W : Env).

(** [auth] either throws before the request, leaving the store as it was,
    or goes on to [dispatch] with the callback URL in the store. *)
Lemma auth_cases d s :
  (∃ e cs, auth L W d s = (Throw e, logged cs s)
           ∧ forallb before_dispatch cs = true)
  ∨ (∃ u signature bytes,
       tag d = "login"
       ∧ getConnector W = None
       ∧ signMessage W LNURLAUTH_CANONICAL_PHRASE 0 0 = inr (Some signature)
       ∧ heap s !! url d = Some u
       ∧ hexToUint8Array L (k1 d) = Some bytes
       ∧ auth L W d s =
         dispatch L W (url d)
           (logged (calls_to_dispatch L signature (host u) (k1 d) bytes)
              (store (url d) (callback_of L W u signature bytes) s))).
Proof.
  unfold auth. case_bool_decide as Htag; cbn [negb].
  2:{ left. eexists _, []. by rewrite logged_nil. }
  run. destruct (getConnector W) as [e|] eqn:Hc; cbn [from_option settle]; run.
  { left. by eexists _, _. }
  destruct (signMessage W _ 0 0) as [e|[[|c sg]|]] eqn:Hs; cbn [settle]; run;
    try (left; by eexists _, _).
  rewrite keyDerivation_run. cbn [heap logged]. cbn zeta.
  destruct (heap s !! url d) as [u|] eqn:Hu; run.
  2:{ left. by eexists _, _. }
  destruct (negb (JsString.truthy (host u)) || _); run.
  { left. by eexists _, _. }
  destruct (negb _ || negb _); run.
  { left. by eexists _, _. }
  destruct (hexToUint8Array L (k1 d)) as [bytes|] eqn:Hk; run.
  2:{ left. by eexists _, _. }
  destruct (negb (JsString.truthy (k1 d))); run.
  { left. by eexists _, _. }
  right. exists u, (String c sg), bytes.
  repeat split; try done.
  rewrite (buildCallback_run W _ _ _ (logged _ s) u Hu).
  run. rewrite store_logged. run. reflexivity.
Qed.

End Runs3.

Lemma remember_login_run h s : remember_login h s = (Ok tt, remembered h s).
Proof.
  unfold remember_login, remembered, db_first, db_update, db_save, gets, modify.
  run. cbn [allowances logged].
  destruct (truthy_id _); run; unfold committed, logged; cbn;
    by rewrite <- ?app_assoc.
Qed.

Section Runs4.

Context (L : Libs) (W : Env).

Lemma perform_run m h d ls s :
  perform L W m h d ls s =
  if confirmed ls then
    match auth L W d s with
    | (Throw e, s1) =>
        match instanceof_Error e with
        | Some msg =>
            (Ok (OutError (JsString msg)),
             logged [console_error e; failed_error msg m d] s1)
        | None =>
            (Ok (OutError JsUndefined),
             logged [console_error e; failed_response None m d] s1)
        end
    | (Ok None, s1) =>
        (Ok (OutError JsUndefined), logged [failed_response None m d] s1)
    | (Ok (Some response), s1) =>
        match status (data response) with
        | None => (Throw TypeError_undefined, s1)
        | Some t =>
            if bool_decide (JsString.toUpperCase t = "OK")
            then
              (Ok (OutData (data response)),
               if remember ls
               then remembered h (logged [succeeded response m d] s1)
               else logged [succeeded response m d] s1)
            else
              (Ok (OutError (reason_value (Some response))),
               logged [failed_response (Some response) m d] s1)
        end
    end
  else (Ok OutUndefined, s).
Proof.
  unfold perform, try_catch, publish.
  destruct (confirmed ls); [|reflexivity].
  run. destruct (auth L W d s) as [[[response|]|e] s1]; run.
  - cbn [status_not_OK]. destruct (status (data response)) as [t|];
      cbn [settle]; run; [|reflexivity].
    case_bool_decide; cbn [negb]; run.
    + destruct (remember ls); run; [|reflexivity].
      rewrite remember_login_run. run. reflexivity.
    + reflexivity.
  - cbn [status_not_OK settle]. run. reflexivity.
  - destruct (instanceof_Error e); run; cbn [status_not_OK settle]; run;
      reflexivity.
Qed.

Lemma authWithPrompt_internal m d s :
  origin_host (origin m) = None →
  authWithPrompt L W m d s = (Ok OutUndefined, s).
Proof. intros H. unfold authWithPrompt. by rewrite H. Qed.

Lemma authWithPrompt_run m d s h :
  origin_host (origin m) = Some h →
  authWithPrompt L W m d s =
  if isUnlocked W && auto_login (first_equalsIgnoreCase h (allowances s))
  then perform L W m h d {| confirmed := true; remember := true |}
         (logged (prelude m d h) s)
  else
    match openPrompt W (promptMessage m d) with
    | inr loginStatus =>
        perform L W m h d loginStatus
          (logged (prelude m d h ++ [utils_openPrompt (promptMessage m d)]) s)
    | inl e =>
        (Ok (OutError (rejection e)),
         logged (prelude m d h ++ [utils_openPrompt (promptMessage m d)]) s)
    end.
Proof.
  intros H. unfold authWithPrompt, publish, db_first, gets, try_catch. rewrite H.
  run. cbn [allowances logged]. fold (isUnlocked W).
  destruct (isUnlocked W && _); run; [reflexivity|].
  destruct (openPrompt W (promptMessage m d)); cbn [settle]; run; reflexivity.
Qed.

End Runs4.

(** * Key derivation and the tag guard *)

Lemma truthy_stringify bytes :
  JsString.truthy (Hex.stringify bytes) = bool_decide (bytes ≠ []).
Proof. by destruct bytes. Qed.

Lemma truthy_nonempty (t : string) : t ≠ "" → JsString.truthy t = true.
Proof. by destruct t. Qed.

(** The instance agrees with the published test vectors of the two
    algorithms. *)
Example sha256_abc :
  Hex.stringify (CryptoJS.sha256 "abc")
  = "ba7816bf8f01cfea414140de5dae2223b00361a396177a9cb410ff61f20015ad".
Proof. vm_compute. reflexivity. Qed.

Example sha256_empty :
  Hex.stringify (CryptoJS.sha256 "")
  = "e3b0c44298fc1c149afbf4c8996fb92427ae41e4649b934ca495991b7852b855".
Proof. vm_compute. reflexivity. Qed.

Example hmacSHA256_fox :
  Hex.stringify
    (CryptoJS.hmacSHA256 "The quick brown fox jumps over the lazy dog" "key")
  = "f7bc83f430538424b13298e6aa6fb143ef4d59a14946175997479dbc2d1a3cd8".
Proof. vm_compute. reflexivity. Qed.

(** C1. Key derivation computes [hashingKey] as the hex of SHA-256 of the
    wallet's signature and [linkingKeyPriv] as the hex of HMAC-SHA256 keyed
    with [hashingKey] over the host; a second derivation from the same
    signature and host, in any other state, returns the same pair.  The
    hypotheses are the guards of lines 140 and 147: a host and two digests
    that are not empty. *)
Theorem keyDerivation_deterministic L signature d1 s1 u1 d2 s2 u2 :
  heap s1 !! url d1 = Some u1 →
  heap s2 !! url d2 = Some u2 →
  host u2 = host u1 →
  host u1 ≠ "" →
  sha256 L signature ≠ [] →
  hmacSHA256 L (host u1) (spec_hashingKey L signature) ≠ [] →
  (keyDerivation L signature d1 s1).1
  = Ok (spec_hashingKey L signature,
        spec_linkingPrivateKey L signature (host u1))
  ∧ (keyDerivation L signature d2 s2).1 = (keyDerivation L signature d1 s1).1.
Proof.
  intros H1 H2 Hh Hne Hsha Hmac.
  assert (∀ d s u, heap s !! url d = Some u → host u = host u1 →
            (keyDerivation L signature d s).1
            = Ok (spec_hashingKey L signature,
                  spec_linkingPrivateKey L signature (host u1))) as Hrun.
  { intros d s u Hu Hhost. rewrite keyDerivation_run, Hu. cbn zeta.
    rewrite Hhost, truthy_nonempty by done.
    rewrite !truthy_stringify.
    fold (spec_hashingKey L signature).
    rewrite !bool_decide_eq_true_2 by done. reflexivity. }
  split; [by apply (Hrun d1 s1 u1)|].
  by rewrite (Hrun d1 s1 u1), (Hrun d2 s2 u2).
Qed.

Lemma keyDerivation_deterministic_witness :
  (keyDerivation Sample.libs "d0c0ffee" Scenario.lnurlDetails
     (Scenario.start [])).1
  = Ok ("bb75f12008f2b698650468c88cef07c1d412811e2399a6dbc488dc8f2906c3d6",
        "0a165f1c870bc00a1b3895f05839f26f80450f58364588808d160e3238ea5cfa").
Proof.
  refine (proj1 (keyDerivation_deterministic Sample.libs "d0c0ffee"
            Scenario.lnurlDetails (Scenario.start []) Scenario.serviceURL
            Scenario.lnurlDetails (Scenario.start [Scenario.trusted])
            Scenario.serviceURL _ _ _ _ _ _)); vm_compute; done.
Defined.

Lemma made_logged_store cs l u s : made s (logged cs (store l u s)) = cs.
Proof. unfold made, logged, store; cbn. by rewrite drop_app_length. Qed.

Lemma made_refl s : made s s = [].
Proof. unfold made. by rewrite drop_all. Qed.

(** Calls made before the request are neither publications, prompts,
    database calls nor requests. *)
Lemma before_dispatch_quiet (kind : Call → bool) cs :
  (∀ c, before_dispatch c = true → kind c = false) →
  forallb before_dispatch cs = true →
  List.filter kind cs = [].
Proof.
  intros Hk. induction cs as [|c cs IH]; [done|]. cbn.
  intros [Hc Hcs]%andb_prop. rewrite (Hk c Hc). by apply IH.
Qed.

(** C2. A challenge whose tag is not [login] makes [auth] throw the
    incorrect-tag error in the very state it was called in: no call to the
    connector, to crypto-js, to the signer or to axios has been made.  The
    whole flow, whatever the consent, then makes no such call either, and
    with consent given it ends with that error. *)
Theorem tag_guard L W m h d s :
  tag d ≠ "login" →
  auth L W d s
  = (Throw (Error ("LNURL-AUTH FAIL: incorrect tag: " +:+ tag d +:+ " was used")),
     s)
  ∧ List.filter is_crypto_or_dispatch
      (made s (authWithPrompt L W m d s).2) = []
  ∧ (∀ loginStatus, confirmed loginStatus = true →
       (perform L W m h d loginStatus s).1
       = Ok (OutError (JsString ("LNURL-AUTH FAIL: incorrect tag: "
                                  +:+ tag d +:+ " was used")))).
Proof.
  intros Htag.
  assert (∀ s0, auth L W d s0
    = (Throw (Error ("LNURL-AUTH FAIL: incorrect tag: " +:+ tag d +:+ " was used")),
       s0)) as Hauth.
  { intros s0. unfold auth. by rewrite bool_decide_eq_false_2. }
  split; [apply Hauth|]. split.
  - destruct (origin_host (origin m)) as [h'|] eqn:Hh.
    2:{ by rewrite authWithPrompt_internal, made_refl. }
    rewrite (authWithPrompt_run L W m d s h' Hh).
    destruct (isUnlocked W && _).
    + rewrite perform_run, Hauth. cbn [confirmed instanceof_Error].
      rewrite logged_logged. cbn [snd]. by rewrite made_logged.
    + destruct (openPrompt W _) as [e|ls].
      * cbn [snd]. by rewrite made_logged.
      * rewrite perform_run, Hauth. cbn [instanceof_Error].
        destruct (confirmed ls); cbn [snd];
          rewrite ?logged_logged; by rewrite made_logged.
  - intros ls Hls. by rewrite perform_run, Hls, Hauth.
Qed.

Lemma tag_guard_witness :
  auth Sample.libs (Scenario.world None (inr Scenario.yes_remember)
                      (Scenario.answer "OK" None))
    {| tag := "withdrawRequest"; k1 := "ab12"; url := 1%positive |}
    (Scenario.start [])
  = (Throw (Error "LNURL-AUTH FAIL: incorrect tag: withdrawRequest was used"),
     Scenario.start []).
Proof.
  refine (proj1 (tag_guard Sample.libs _ Scenario.message "Svc.Example"
                   {| tag := "withdrawRequest"; k1 := "ab12"; url := 1%positive |}
                   (Scenario.start []) _)).
  vm_compute. done.
Defined.

(** * The callback URL *)

Module SearchParamsFacts.
Import URLSearchParams.

Lemma getAll_without_eq name l : getAll name (without name l) = [].
Proof.
  unfold getAll, without. induction l as [|[n v] l IH]; [done|]. cbn.
  case_bool_decide; cbn; [done|]. by rewrite bool_decide_eq_false_2.
Qed.

Lemma getAll_without_ne name other l :
  other ≠ name → getAll other (without name l) = getAll other l.
Proof.
  intros Hne. unfold getAll, without.
  induction l as [|[n v] l IH]; [done|]. cbn.
  case_bool_decide as Hn; cbn in *.
  - subst n. by rewrite bool_decide_eq_false_2.
  - case_bool_decide; cbn; by rewrite IH.
Qed.

(** After [set] the name occurs once, with the value given. *)
Lemma getAll_set_eq name value l : getAll name (set name value l) = [value].
Proof.
  induction l as [|[n v] l IH]; cbn.
  - unfold getAll. cbn. by rewrite bool_decide_eq_true_2.
  - case_bool_decide as Hn.
    + unfold getAll. cbn. rewrite bool_decide_eq_true_2 by done. cbn.
      f_equal. apply getAll_without_eq.
    + unfold getAll in *. cbn. by rewrite bool_decide_eq_false_2.
Qed.

(** [set] leaves the pairs of every other name as they were. *)
Lemma getAll_set_ne name value other l :
  other ≠ name → getAll other (set name value l) = getAll other l.
Proof.
  intros Hne. induction l as [|[n v] l IH]; cbn.
  - unfold getAll. cbn. by rewrite bool_decide_eq_false_2.
  - case_bool_decide as Hn.
    + subst n. unfold getAll. cbn.
      rewrite !bool_decide_eq_false_2 by done.
      apply (getAll_without_ne name other l Hne).
    + unfold getAll in *. cbn. case_bool_decide; cbn; by rewrite IH.
Qed.

(** Pairs that [keep] accepts survive [set] in their order, when [keep]
    rejects the name that is set. *)
Lemma filter_without (keep : string * string → bool) name l :
  (∀ v, keep (name, v) = false) →
  List.filter keep (without name l) = List.filter keep l.
Proof.
  intros Hk. unfold without. induction l as [|[n v] l IH]; [done|]. cbn.
  case_bool_decide as Hn; cbn.
  - subst n. by rewrite Hk.
  - by rewrite IH.
Qed.

Lemma filter_set (keep : string * string → bool) name value l :
  (∀ v, keep (name, v) = false) →
  List.filter keep (set name value l) = List.filter keep l.
Proof.
  intros Hk. induction l as [|[n v] l IH]; cbn.
  - by rewrite Hk.
  - case_bool_decide as Hn; cbn.
    + subst n. rewrite !Hk. by apply filter_without.
    + by rewrite IH.
Qed.

(** With no pair of that name, [set] appends. *)
Lemma set_fresh name value l :
  Forall (λ p, p.1 ≠ name) l → set name value l = l ++ [(name, value)].
Proof.
  induction 1 as [|[n v] l Hn _ IH]; [done|]. cbn in *.
  by rewrite bool_decide_eq_false_2, IH.
Qed.

End SearchParamsFacts.

Lemma is_added_ne name :
  is_added name = false → name ≠ "sig" ∧ name ≠ "key" ∧ name ≠ "t".
Proof.
  unfold is_added. intros H.
  repeat split; intros ->; discriminate H.
Qed.

(** C8. The callback URL keeps every pair of the service URL whose name is
    not [sig], [key] or [t], in their order, and keeps the rest of the URL;
    it carries exactly one [sig], one [key] and one [t], with the signature,
    the public key and the clock's reading; when the service URL had none of
    the three names, they are appended in that order. *)
Theorem callback_parameters W l sg key s u :
  heap s !! l = Some u →
  ∃ s' u',
    buildCallback W l sg key s = (Ok tt, s')
    ∧ heap s' !! l = Some u'
    ∧ (protocol u', host u', pathname u', hash u')
      = (protocol u, host u, pathname u, hash u)
    ∧ List.filter kept (searchParams u') = List.filter kept (searchParams u)
    ∧ (∀ name, is_added name = false →
         URLSearchParams.getAll name (searchParams u')
         = URLSearchParams.getAll name (searchParams u))
    ∧ URLSearchParams.getAll "sig" (searchParams u') = [sg]
    ∧ URLSearchParams.getAll "key" (searchParams u') = [key]
    ∧ URLSearchParams.getAll "t" (searchParams u') = [JsString.of_Z (now W)]
    ∧ (Forall (λ p, is_added p.1 = false) (searchParams u) →
         searchParams u'
         = searchParams u
           ++ [("sig", sg); ("key", key); ("t", JsString.of_Z (now W))]).
Proof.
  intros Hu. eexists _, _. split; [by apply buildCallback_run|].
  split; [apply lookup_store|]. cbn [callback URL_set protocol host pathname
    hash searchParams].
  split; [done|]. split.
  { rewrite !SearchParamsFacts.filter_set; done. }
  split.
  { intros name (Hs & Hk & Ht)%is_added_ne.
    by rewrite !SearchParamsFacts.getAll_set_ne. }
  split.
  { rewrite !SearchParamsFacts.getAll_set_ne by done.
    apply SearchParamsFacts.getAll_set_eq. }
  split.
  { rewrite SearchParamsFacts.getAll_set_ne by done.
    apply SearchParamsFacts.getAll_set_eq. }
  split; [apply SearchParamsFacts.getAll_set_eq|].
  intros Hfresh.
  assert (∀ n, is_added n = true →
            Forall (λ p : string * string, p.1 ≠ n) (searchParams u)) as Hn.
  { intros n Hadd. eapply Forall_impl; [exact Hfresh|].
    intros p Hp Heq. cbn beta in Hp. rewrite Heq in Hp. congruence. }
  rewrite (SearchParamsFacts.set_fresh "sig") by (by apply Hn).
  rewrite (SearchParamsFacts.set_fresh "key").
  2:{ apply Forall_app. split; [by apply Hn|]. by repeat constructor. }
  rewrite (SearchParamsFacts.set_fresh "t").
  2:{ apply Forall_app. split.
      - apply Forall_app. split; [by apply Hn|]. by repeat constructor.
      - by repeat constructor. }
  by rewrite <- !app_assoc.
Qed.

Lemma callback_parameters_witness :
  ∃ s' u',
    buildCallback (Scenario.world None (inr Scenario.declined)
                     (Scenario.answer "OK" None))
      1%positive "deadbeef" "02abcd" (Scenario.start []) = (Ok tt, s')
    ∧ heap s' !! 1%positive = Some u'
    ∧ searchParams u'
      = [("tag", "login"); ("k1", "ab12"); ("sig", "deadbeef");
         ("key", "02abcd"); ("t", "1700000000000")].
Proof.
  destruct (callback_parameters
              (Scenario.world None (inr Scenario.declined)
                 (Scenario.answer "OK" None))
              1%positive "deadbeef" "02abcd" (Scenario.start [])
              Scenario.serviceURL)
    as (s' & u' & Hrun & Hu' & _ & _ & _ & _ & _ & _ & Happ).
  { vm_compute. reflexivity. }
  exists s', u'. split; [exact Hrun|]. split; [exact Hu'|].
  rewrite Happ; [reflexivity|]. vm_compute. by repeat constructor.
Defined.

(** C9 as the spec words it fails: after the callback is built, the object
    the challenge refers to is no longer the service URL it was, both for
    the three lines alone and for a whole run of [auth]. *)
Lemma callback_changes_serviceURL :
  heap (Scenario.start []) !! url Scenario.lnurlDetails
  = Some Scenario.serviceURL
  ∧ heap (buildCallback Scenario.idle (url Scenario.lnurlDetails)
            "deadbeef" "02abcd" (Scenario.start [])).2
      !! url Scenario.lnurlDetails
    ≠ Some Scenario.serviceURL
  ∧ heap (auth Sample.libs Scenario.idle Scenario.lnurlDetails
            (Scenario.start [])).2
      !! url Scenario.lnurlDetails
    ≠ Some Scenario.serviceURL.
Proof. vm_compute. repeat split; discriminate. Qed.

(** C9, amended. Building the callback writes to one object only, the URL
    the challenge refers to, which becomes the callback URL in place; every
    other object of the store, the allowances and their persisted copy are
    left as they were, and the only call made is the reading of the clock. *)
Theorem callback_in_place W l sg key s u :
  heap s !! l = Some u →
  ∃ s',
    buildCallback W l sg key s = (Ok tt, s')
    ∧ heap s' !! l = Some (callback u sg key (JsString.of_Z (now W)))
    ∧ (∀ l', l' ≠ l → heap s' !! l' = heap s !! l')
    ∧ allowances s' = allowances s
    ∧ storage s' = storage s
    ∧ made s s' = [Date_now].
Proof.
  intros Hu. eexists. split; [by apply buildCallback_run|].
  split; [apply lookup_store|]. split.
  { intros l' Hne. cbn. by apply lookup_insert_ne. }
  repeat split. apply made_logged_store.
Qed.

Lemma callback_in_place_witness :
  ∃ s',
    buildCallback Scenario.idle 1%positive "deadbeef" "02abcd"
      (Scenario.start [Scenario.trusted])
    = (Ok tt, s')
    ∧ heap s' !! 1%positive
      = Some (callback Scenario.serviceURL "deadbeef" "02abcd" "1700000000000")
    ∧ allowances s' = [Scenario.trusted].
Proof.
  destruct (callback_in_place Scenario.idle 1%positive "deadbeef" "02abcd"
              (Scenario.start [Scenario.trusted]) Scenario.serviceURL)
    as (s' & Hrun & Hu' & _ & Ha & _).
  { vm_compute. reflexivity. }
  exists s'. split; [exact Hrun|]. split; [exact Hu'|]. exact Ha.
Defined.

(** * Every run is one of the five *)

Section Classification.

Context (L : Libs) (W : Env).

Lemma perform_Run m d s h loginStatus cs :
  origin_host (origin m) = Some h →
  consent W m d (first_equalsIgnoreCase h (allowances s))
  = (inr loginStatus, cs) →
  Run L W m d s
    (perform L W m h d loginStatus (logged (prelude m d h ++ cs) s)).
Proof.
  intros Hh Hc. rewrite perform_run.
  destruct (confirmed loginStatus) eqn:Hconf.
  2:{ by eapply Run_declined. }
  destruct (auth_cases L W d (logged (prelude m d h ++ cs) s))
    as [(e & pre & Hauth & Hpre)
       |(u & signature & bytes & Htag & Hgc & Hsm & Hu & Hk & Hauth)].
  - rewrite logged_logged, <- app_assoc in Hauth. rewrite Hauth.
    pose proof (Run_thrown L W m d s h loginStatus cs e pre
                  Hh Hc Hconf Hauth Hpre) as HR.
    unfold caught in HR.
    destruct (instanceof_Error e); cbn [fst snd] in HR;
      rewrite logged_logged, <- !app_assoc; exact HR.
  - cbn [heap logged] in Hu.
    pose proof (Run_dispatched L W m d s h loginStatus cs u signature bytes
                  Hh Hc Hconf Htag Hgc Hsm Hu Hk) as HR.
    rewrite store_logged, logged_logged, <- app_assoc in Hauth.
    rewrite Hauth.
    rewrite (dispatch_run L W _ _ (callback_of L W u signature bytes))
      by apply lookup_store.
    cbn zeta. unfold conclude in HR.
    destruct (axios_get_reply W _) as [[msg|msg rr|v]|response].
    + cbn [instanceof_Error]. rewrite ?logged_logged, <- ?app_assoc in *.
      exact HR.
    + cbn [instanceof_Error]. rewrite ?logged_logged, <- ?app_assoc in *.
      exact HR.
    + rewrite ?logged_logged, <- ?app_assoc in *. exact HR.
    + destruct (status (data response)) as [t|];
        [case_bool_decide; [destruct (remember loginStatus)|]|];
        rewrite ?logged_logged, <- ?app_assoc in *; exact HR.
Qed.

Theorem authWithPrompt_Run m d s : Run L W m d s (authWithPrompt L W m d s).
Proof.
  destruct (origin_host (origin m)) as [h|] eqn:Hh.
  2:{ rewrite authWithPrompt_internal by done. by constructor. }
  rewrite (authWithPrompt_run L W m d s h Hh).
  destruct (isUnlocked W && _) eqn:Hauto.
  - rewrite <- (app_nil_r (prelude m d h)).
    apply perform_Run; [done|]. unfold consent. by rewrite Hauto.
  - destruct (openPrompt W (promptMessage m d)) as [e|ls] eqn:Hp.
    + apply Run_rejected; [done|]. unfold consent. by rewrite Hauto, Hp.
    + apply perform_Run; [done|]. unfold consent. by rewrite Hauto, Hp.
Qed.

End Classification.

(** * The consent gate *)

Lemma consent_inv W m d allowance r cs :
  consent W m d allowance = (r, cs) →
  (isUnlocked W && auto_login allowance = true
   ∧ r = inr {| confirmed := true; remember := true |} ∧ cs = [])
  ∨ (isUnlocked W && auto_login allowance = false
     ∧ r = openPrompt W (promptMessage m d)
     ∧ cs = [utils_openPrompt (promptMessage m d)]).
Proof.
  unfold consent. destruct (isUnlocked W && auto_login allowance);
    intros [= <- <-]; auto.
Qed.

Lemma filter_before_dispatch kind pre (after : list Call) :
  (∀ c, before_dispatch c = true → kind c = false) →
  forallb before_dispatch pre = true →
  List.filter kind (pre ++ after) = List.filter kind after.
Proof.
  intros Hk Hpre. rewrite List.filter_app.
  by rewrite (before_dispatch_quiet kind pre Hk Hpre).
Qed.

Lemma not_prompt c : before_dispatch c = true → is_prompt c = false.
Proof. by destruct c. Qed.

Lemma not_failed c : before_dispatch c = true → is_failed c = false.
Proof. by destruct c. Qed.

Lemma not_success c : before_dispatch c = true → is_success c = false.
Proof. by destruct c. Qed.

Lemma not_update c : before_dispatch c = true → is_update c = false.
Proof. by destruct c. Qed.

Lemma not_flush c : before_dispatch c = true → is_flush c = false.
Proof. by destruct c. Qed.

Lemma not_request c : before_dispatch c = true → is_dispatch c = false.
Proof. by destruct c. Qed.

(** The calls [conclude] adds, and the store it leaves alone. *)
Lemma conclude_calls m d h ls href reply s1 :
  ∃ cs, calls (conclude m d h ls href reply s1).2 = calls s1 ++ axios_get href :: cs
        ∧ heap (conclude m d h ls href reply s1).2 = heap s1
        ∧ List.filter is_prompt cs = []
        ∧ List.filter is_dispatch cs = [].
Proof.
  unfold conclude. destruct reply as [[msg|msg rr|v]|response];
    try (eexists; cbn; by repeat split).
  destruct (status (data response)) as [t|]; [|eexists; cbn; by repeat split].
  case_bool_decide; [|eexists; cbn; by repeat split].
  destruct (remember ls); [|eexists; cbn; by repeat split].
  unfold remembered. cbn [allowances logged].
  destruct (truthy_id _); eexists; cbn; rewrite <- ?app_assoc; by repeat split.
Qed.

Lemma made_app s s' cs : calls s' = calls s ++ cs → made s s' = cs.
Proof. intros H. unfold made. by rewrite H, drop_app_length. Qed.

(** C6. When the prompt is consulted and rejects, the flow returns the
    failure whose [error] is the rejection's message (the rejected value
    itself when it is not an [Error]); the calls of the run are the start
    notification, the allowance lookup, the reading of the password and the
    prompt, and the store and the database are as before: nothing was asked
    of the connector, derived, signed or sent. *)
Theorem prompt_rejected L W m d s h e :
  origin_host (origin m) = Some h →
  isUnlocked W && auto_login (first_equalsIgnoreCase h (allowances s)) = false →
  openPrompt W (promptMessage m d) = inl e →
  authWithPrompt L W m d s
  = (Ok (OutError (rejection e)),
     logged (prelude m d h ++ [utils_openPrompt (promptMessage m d)]) s)
  ∧ List.filter is_crypto_or_dispatch (made s (authWithPrompt L W m d s).2) = []
  ∧ (∀ msg, e = Error msg →
       (authWithPrompt L W m d s).1 = Ok (OutError (JsString msg))).
Proof.
  intros Hh Hauto Hp.
  assert (authWithPrompt L W m d s
          = (Ok (OutError (rejection e)),
             logged (prelude m d h ++ [utils_openPrompt (promptMessage m d)]) s))
    as Hrun.
  { by rewrite (authWithPrompt_run L W m d s h Hh), Hauto, Hp. }
  rewrite Hrun. split; [done|]. split.
  - cbn [snd]. by rewrite made_logged.
  - by intros msg ->.
Qed.

Lemma prompt_rejected_witness :
  authWithPrompt Sample.libs
    (Scenario.world (Some "secret") (inl (Error "User rejected"))
       (Scenario.answer "OK" None))
    Scenario.message Scenario.lnurlDetails (Scenario.start [Scenario.enabled_only])
  = (Ok (OutError (JsString "User rejected")),
     logged (prelude Scenario.message Scenario.lnurlDetails "Svc.Example"
             ++ [utils_openPrompt
                   (promptMessage Scenario.message Scenario.lnurlDetails)])
       (Scenario.start [Scenario.enabled_only])).
Proof.
  refine (proj1 (prompt_rejected Sample.libs
                   (Scenario.world (Some "secret") (inl (Error "User rejected"))
                      (Scenario.answer "OK" None))
                   Scenario.message Scenario.lnurlDetails
                   (Scenario.start [Scenario.enabled_only]) "Svc.Example"
                   (Error "User rejected") _ _ _));
    vm_compute; reflexivity.
Defined.

(** The log of a run with a host: the prelude, the calls of the consent
    gate, and then calls among which there is no prompt. *)
Lemma Run_made L W m d s r h :
  Run L W m d s r →
  origin_host (origin m) = Some h →
  ∃ dec cs later,
    consent W m d (first_equalsIgnoreCase h (allowances s)) = (dec, cs)
    ∧ made s r.2 = prelude m d h ++ cs ++ later
    ∧ List.filter is_prompt later = [].
Proof.
  intros HR Hh.
  destruct HR as [Hn|h' e cs Hh' Hc|h' ls cs Hh' Hc Hconf
                 |h' ls cs e pre Hh' Hc Hconf Hauth Hpre
                 |h' ls cs u sg bytes Hh' Hc Hconf Htag Hgc Hsm Hu Hk];
    [congruence|..]; assert (h' = h) as -> by congruence.
  - exists (inl e), cs, []. rewrite app_nil_r. cbn [snd].
    by rewrite made_logged.
  - exists (inr ls), cs, []. rewrite app_nil_r. cbn [snd].
    by rewrite made_logged.
  - exists (inr ls), cs, (pre ++ (caught m d e).2). cbn [snd].
    rewrite made_logged. repeat split; [done|].
    rewrite (filter_before_dispatch _ _ _ not_prompt Hpre).
    unfold caught. by destruct (instanceof_Error e).
  - destruct (conclude_calls m d h ls
                (URL_toString L (callback_of L W u sg bytes))
                (axios_get_reply W (URL_toString L (callback_of L W u sg bytes)))
                (logged (prelude m d h ++ cs
                         ++ calls_to_dispatch L sg (host u) (k1 d) bytes)
                   (store (url d) (callback_of L W u sg bytes) s)))
      as (after & Hcalls & _ & Hafter & _).
    exists (inr ls), cs,
      (calls_to_dispatch L sg (host u) (k1 d) bytes ++ axios_get
         (URL_toString L (callback_of L W u sg bytes)) :: after).
    repeat split; [done| |].
    + apply made_app. rewrite Hcalls. cbn [calls logged store].
      by rewrite <- !app_assoc.
    + rewrite List.filter_app. cbn. exact Hafter.
  Qed.

(** C3. With the wallet unlocked and the row found for the host (letter case
    ignored) enabled and remembered, the flow goes on with the decision
    [{ confirmed: true, remember: true }] right after the prelude and the
    prompt is never called; with the wallet locked, the same row
    notwithstanding, the call after the prelude is the prompt. *)
Theorem consent_bypass L W W' m d s h r :
  origin_host (origin m) = Some h →
  first_equalsIgnoreCase h (allowances s) = Some r →
  enabled r = true →
  lnurlAuth r = true →
  password W ≠ None →
  password W' = None →
  authWithPrompt L W m d s
  = perform L W m h d {| confirmed := true; remember := true |}
      (logged (prelude m d h) s)
  ∧ List.filter is_prompt (made s (authWithPrompt L W m d s).2) = []
  ∧ ∃ later,
      made s (authWithPrompt L W' m d s).2
      = prelude m d h ++ utils_openPrompt (promptMessage m d) :: later.
Proof.
  intros Hh Hr He Hl Hpw Hpw'.
  assert (isUnlocked W && auto_login (first_equalsIgnoreCase h (allowances s))
          = true) as Hauto.
  { unfold isUnlocked. rewrite Hr. cbn [auto_login]. rewrite He, Hl.
    by rewrite bool_decide_eq_true_2. }
  assert (isUnlocked W' && auto_login (first_equalsIgnoreCase h (allowances s))
          = false) as Hauto'.
  { unfold isUnlocked. rewrite bool_decide_eq_false_2; [done|]. by intros []. }
  split; [|split].
  - by rewrite (authWithPrompt_run L W m d s h Hh), Hauto.
  - destruct (Run_made L W m d s _ h (authWithPrompt_Run L W m d s) Hh)
      as (dec & cs & later & Hc & Hmade & Hlater).
    apply consent_inv in Hc as [(_ & _ & ->)|(Hno & _)]; [|congruence].
    rewrite Hmade. cbn [app]. rewrite List.filter_app. by rewrite Hlater.
  - destruct (Run_made L W' m d s _ h (authWithPrompt_Run L W' m d s) Hh)
      as (dec & cs & later & Hc & Hmade & Hlater).
    apply consent_inv in Hc as [(Hyes & _)|(_ & _ & ->)]; [congruence|].
    exists later. by rewrite Hmade.
Qed.

Lemma consent_bypass_witness :
  List.filter is_prompt
    (made (Scenario.start [Scenario.trusted])
       (authWithPrompt Sample.libs
          (Scenario.world (Some "secret") (inr Scenario.declined)
             (Scenario.answer "OK" None))
          Scenario.message Scenario.lnurlDetails
          (Scenario.start [Scenario.trusted])).2) = [].
Proof.
  refine (proj1 (proj2 (consent_bypass Sample.libs
            (Scenario.world (Some "secret") (inr Scenario.declined)
               (Scenario.answer "OK" None))
            Scenario.idle
            Scenario.message Scenario.lnurlDetails
            (Scenario.start [Scenario.trusted]) "Svc.Example" Scenario.trusted
            _ _ _ _ _ _)));
    vm_compute; done.
Defined.

(** * Outcomes *)

Lemma caught_defined m d e : (caught m d e).1 ≠ OutUndefined.
Proof. unfold caught. by destruct (instanceof_Error e). Qed.

Lemma conclude_defined m d h ls href reply s1 :
  (conclude m d h ls href reply s1).1 ≠ Ok OutUndefined.
Proof.
  unfold conclude. destruct reply as [[msg|msg rr|v]|response]; try done.
  destruct (status (data response)) as [t|]; [|done]. by case_bool_decide.
Qed.

(** C10. [authWithPrompt] returns [undefined] in two cases and no other:
    the origin has no [host], or the prompt was consulted and resolved with
    [confirmed] false.  In both the store and the database are as before and
    the run called neither the connector, crypto-js, the signer nor axios,
    and published neither a success nor a failure. *)
Theorem undefined_outcome L W m d s :
  ((authWithPrompt L W m d s).1 = Ok OutUndefined
   ↔ origin_host (origin m) = None
     ∨ ∃ h loginStatus,
         origin_host (origin m) = Some h
         ∧ isUnlocked W && auto_login (first_equalsIgnoreCase h (allowances s))
           = false
         ∧ openPrompt W (promptMessage m d) = inr loginStatus
         ∧ confirmed loginStatus = false)
  ∧ ((authWithPrompt L W m d s).1 = Ok OutUndefined →
     heap (authWithPrompt L W m d s).2 = heap s
     ∧ allowances (authWithPrompt L W m d s).2 = allowances s
     ∧ storage (authWithPrompt L W m d s).2 = storage s
     ∧ List.filter is_crypto_or_dispatch
         (made s (authWithPrompt L W m d s).2) = []
     ∧ List.filter is_failed (made s (authWithPrompt L W m d s).2) = []
     ∧ List.filter is_success (made s (authWithPrompt L W m d s).2) = []).
Proof.
  pose proof (authWithPrompt_Run L W m d s) as HR.
  remember (authWithPrompt L W m d s) as r eqn:Er. clear Er.
  destruct HR as [Hn|h e cs Hh Hc|h ls cs Hh Hc Hconf
                 |h ls cs e pre Hh Hc Hconf Hauth Hpre
                 |h ls cs u sg bytes Hh Hc Hconf Htag Hgc Hsm Hu Hk];
    cbn [fst snd].
  - split; [split; auto|]. intros _. by rewrite made_refl.
  - split; [|done]. split; [done|].
    intros [Hn|(h' & ls & Hh' & Hauto & Hp & _)]; [congruence|].
    assert (h' = h) as -> by congruence.
    apply consent_inv in Hc as [(? & _)|(_ & He & _)]; congruence.
  - apply consent_inv in Hc as [(_ & [= ->] & _)|(Hauto & Hp & ->)]; [done|].
    split.
    + split; [|done]. intros _. right. by exists h, ls.
    + intros _. rewrite made_logged. by repeat split.
  - split; [|intros [=]; by destruct (caught_defined m d e)].
    split; [intros [=]; by destruct (caught_defined m d e)|].
    intros [Hn|(h' & ls' & Hh' & Hauto & Hp & Hno)]; [congruence|].
    assert (h' = h) as -> by congruence.
    apply consent_inv in Hc as [(? & _)|(_ & He & _)]; congruence.
  - split; [|intros H; by destruct (conclude_defined _ _ _ _ _ _ _ H)].
    split; [intros H; by destruct (conclude_defined _ _ _ _ _ _ _ H)|].
    intros [Hn|(h' & ls' & Hh' & Hauto & Hp & Hno)]; [congruence|].
    assert (h' = h) as -> by congruence.
    apply consent_inv in Hc as [(? & _)|(_ & He & _)]; congruence.
Qed.

Lemma undefined_outcome_witness :
  (authWithPrompt Sample.libs Scenario.idle Scenario.message
     Scenario.lnurlDetails (Scenario.start [Scenario.trusted])).1
  = Ok OutUndefined.
Proof.
  refine (proj2 (proj1 (undefined_outcome Sample.libs Scenario.idle
                          Scenario.message Scenario.lnurlDetails
                          (Scenario.start [Scenario.trusted]))) _).
  right. exists "Svc.Example", Scenario.declined. vm_compute. done.
Defined.

Lemma conclude_error m d h ls href reply s1 err :
  (conclude m d h ls href reply s1).1 = Ok (OutError err) →
  ∃ mid p,
    (conclude m d h ls href reply s1).2
    = logged (axios_get href :: mid ++ [PubSub_publish "lnurl.auth.failed" p]) s1
    ∧ List.filter is_failed mid = [].
Proof.
  unfold conclude. destruct reply as [[msg|msg rr|v]|response]; cbn [fst snd].
  - intros _. by eexists [_], _.
  - intros _. by eexists [_; _; _], _.
  - intros _. by eexists [], _.
  - destruct (status (data response)) as [t|]; [|done].
    case_bool_decide; [done|]. intros _. by eexists [], _.
Qed.

(** C7 as the spec words it fails: a run ended by the rejection of the
    prompt returns its failure and has published no [lnurl.auth.failed]. *)
Lemma rejection_not_published :
  (authWithPrompt Sample.libs
     (Scenario.world (Some "secret") (inl (Error "User rejected"))
        (Scenario.answer "OK" None))
     Scenario.message Scenario.lnurlDetails (Scenario.start [])).1
  = Ok (OutError (JsString "User rejected"))
  ∧ List.filter is_failed
      (made (Scenario.start [])
         (authWithPrompt Sample.libs
            (Scenario.world (Some "secret") (inl (Error "User rejected"))
               (Scenario.answer "OK" None))
            Scenario.message Scenario.lnurlDetails (Scenario.start [])).2)
    = [].
Proof. vm_compute. done. Qed.

(** C7, amended. A run that returns a failure either was ended by the
    rejection of the prompt, and then published no failure, or got past the
    consent gate, and then its last call is the publication of
    [lnurl.auth.failed], the only one of the run. *)
Theorem failure_published L W m d s err :
  (authWithPrompt L W m d s).1 = Ok (OutError err) →
  (∃ h e,
     origin_host (origin m) = Some h
     ∧ isUnlocked W && auto_login (first_equalsIgnoreCase h (allowances s))
       = false
     ∧ openPrompt W (promptMessage m d) = inl e
     ∧ err = rejection e
     ∧ List.filter is_failed (made s (authWithPrompt L W m d s).2) = [])
  ∨ (∃ before p,
       made s (authWithPrompt L W m d s).2
       = before ++ [PubSub_publish "lnurl.auth.failed" p]
       ∧ List.filter is_failed before = []).
Proof.
  pose proof (authWithPrompt_Run L W m d s) as HR.
  remember (authWithPrompt L W m d s) as r eqn:Er. clear Er.
  destruct HR as [Hn|h e cs Hh Hc|h ls cs Hh Hc Hconf
                 |h ls cs e pre Hh Hc Hconf Hauth Hpre
                 |h ls cs u sg bytes Hh Hc Hconf Htag Hgc Hsm Hu Hk];
    cbn [fst snd]; try done.
  - intros [= <-]. left. exists h, e.
    apply consent_inv in Hc as [(_ & [=] & _)|(Hauto & Hp & ->)].
    rewrite made_logged. by repeat split.
  - intros _. right. rewrite made_logged.
    assert (List.filter is_failed cs = []) as Hcs.
    { by apply consent_inv in Hc as [(_ & _ & ->)|(_ & _ & ->)]. }
    unfold caught. destruct (instanceof_Error e) as [msg|]; cbn [snd].
    + eexists (prelude m d h ++ cs ++ pre ++ [console_error e]), _.
      split; [by rewrite <- !app_assoc|].
      rewrite !List.filter_app, Hcs.
      by rewrite (before_dispatch_quiet _ _ not_failed Hpre).
    + eexists (prelude m d h ++ cs ++ pre ++ [console_error e]), _.
      split; [by rewrite <- !app_assoc|].
      rewrite !List.filter_app, Hcs.
      by rewrite (before_dispatch_quiet _ _ not_failed Hpre).
  - intros Herr. right.
    destruct (conclude_error _ _ _ _ _ _ _ _ Herr) as (mid & p & -> & Hmid).
    rewrite logged_logged, made_logged_store.
    assert (List.filter is_failed cs = []) as Hcs.
    { by apply consent_inv in Hc as [(_ & _ & ->)|(_ & _ & ->)]. }
    exists (prelude m d h ++ cs ++ calls_to_dispatch L sg (host u) (k1 d) bytes
            ++ axios_get (URL_toString L (callback_of L W u sg bytes)) :: mid), p.
    split.
    + rewrite <- !app_assoc. cbn [app]. by rewrite <- ?app_assoc.
    + rewrite !List.filter_app, Hcs. cbn. by rewrite Hmid.
Qed.

Lemma failure_published_witness :
  ∃ before p,
    made (Scenario.start [])
      (authWithPrompt Sample.libs
         (Scenario.world (Some "secret") (inr Scenario.yes_remember)
            (Scenario.answer "ERROR" (Some "bad sig")))
         Scenario.message Scenario.lnurlDetails (Scenario.start [])).2
    = before ++ [PubSub_publish "lnurl.auth.failed" p]
    ∧ List.filter is_failed before = [].
Proof.
  destruct (failure_published Sample.libs
              (Scenario.world (Some "secret") (inr Scenario.yes_remember)
                 (Scenario.answer "ERROR" (Some "bad sig")))
              Scenario.message Scenario.lnurlDetails (Scenario.start [])
              (JsString "bad sig"))
    as [(h & e & _ & _ & Hp & _)|Hpub].
  - vm_compute. reflexivity.
  - discriminate Hp.
  - exact Hpub.
Defined.

(** * The answer of the service *)

Lemma not_in_filter (kind : Call → bool) c cs :
  List.filter kind cs = [] → In c cs → kind c = false.
Proof.
  intros Hf Hin. destruct (kind c) eqn:Hk; [|done].
  assert (In c (List.filter kind cs)) as H by (apply List.filter_In; auto).
  rewrite Hf in H. destruct H.
Qed.

(** A run that sent a request to [href] ends as [conclude] says for the
    answer to [href]. *)
Lemma Run_dispatch_inv L W m d s r href :
  Run L W m d s r →
  In (axios_get href) (made s r.2) →
  ∃ h ls s1, r.1 = (conclude m d h ls href (axios_get_reply W href) s1).1.
Proof.
  intros HR Hin.
  destruct HR as [Hn|h e cs Hh Hc|h ls cs Hh Hc Hconf
                 |h ls cs e pre Hh Hc Hconf Hauth Hpre
                 |h ls cs u sg bytes Hh Hc Hconf Htag Hgc Hsm Hu Hk];
    cbn [fst snd] in *.
  - rewrite made_refl in Hin. destruct Hin.
  - rewrite made_logged in Hin. exfalso.
    apply (not_in_filter is_dispatch) in Hin; [done|].
    rewrite List.filter_app.
    by apply consent_inv in Hc as [(_ & _ & ->)|(_ & _ & ->)].
  - rewrite made_logged in Hin. exfalso.
    apply (not_in_filter is_dispatch) in Hin; [done|].
    rewrite List.filter_app.
    by apply consent_inv in Hc as [(_ & _ & ->)|(_ & _ & ->)].
  - rewrite made_logged in Hin. exfalso.
    apply (not_in_filter is_dispatch) in Hin; [done|].
    rewrite !List.filter_app.
    rewrite (before_dispatch_quiet _ _ not_request Hpre).
    unfold caught.
    apply consent_inv in Hc as [(_ & _ & ->)|(_ & _ & ->)];
      by destruct (instanceof_Error e).
  - set (href0 := URL_toString L (callback_of L W u sg bytes)) in *.
    set (s1 := logged _ (store _ _ s)) in *.
    destruct (conclude_calls m d h ls href0 (axios_get_reply W href0) s1)
      as (after & Hcalls & _ & _ & Hafter).
    assert (href = href0) as ->; [|by exists h, ls, s1].
    rewrite (made_app s _ (prelude m d h ++ cs
               ++ calls_to_dispatch L sg (host u) (k1 d) bytes
               ++ axios_get href0 :: after)) in Hin.
    2:{ rewrite Hcalls. unfold s1. cbn [calls logged store].
        by rewrite <- !app_assoc. }
    rewrite !in_app_iff in Hin.
    destruct Hin as [Hin|[Hin|[Hin|[Hin|Hin]]]].
    + apply (not_in_filter is_dispatch) in Hin; done.
    + apply (not_in_filter is_dispatch) in Hin; [done|].
      by apply consent_inv in Hc as [(_ & _ & ->)|(_ & _ & ->)].
    + apply (not_in_filter is_dispatch) in Hin; done.
    + congruence.
    + apply (not_in_filter is_dispatch) in Hin; done.
Qed.

Lemma conclude_outcome m d h ls href reply s1 :
  (conclude m d h ls href reply s1).1
  = match reply with
    | inr response =>
        match status (data response) with
        | None => Throw TypeError_undefined
        | Some t =>
            if bool_decide (JsString.toUpperCase t = "OK")
            then Ok (OutData (data response))
            else Ok (OutError (reason_value (Some response)))
        end
    | inl (AxiosError msg rr) => Ok (OutError (JsString (reason_or_message rr msg)))
    | inl (Error msg) => Ok (OutError (JsString msg))
    | inl (NonError _) => Ok (OutError JsUndefined)
    end.
Proof.
  unfold conclude. destruct reply as [[msg|msg rr|v]|response]; try done.
  destruct (status (data response)) as [t|]; [|done]. by case_bool_decide.
Qed.

(** The comparison of line 79 accepts the four spellings of the word. *)
Lemma toUpperCase_OK (t : string) :
  JsString.toUpperCase t = "OK" ↔ t = "OK" ∨ t = "Ok" ∨ t = "oK" ∨ t = "ok".
Proof.
  split.
  - destruct t as [|a [|b [|c t]]]; try done. cbn. intros [= Ha Hb].
    assert (a = "O"%char ∨ a = "o"%char) as Ha'.
    { revert Ha. destruct a as [[] [] [] [] [] [] [] []]; cbn; intros [=]; auto. }
    assert (b = "K"%char ∨ b = "k"%char) as Hb'.
    { revert Hb. destruct b as [[] [] [] [] [] [] [] []]; cbn; intros [=]; auto. }
    destruct Ha' as [-> | ->], Hb' as [-> | ->]; auto.
  - intros [-> | [-> | [-> | ->]]]; reflexivity.
Qed.

(** C4 as the spec words it fails on two answers: a completed call whose
    body has a status other than [OK] and no [reason] gives a failure with no
    reason at all, and a failed call whose body has an empty [reason] gives
    the message of the transport error. *)
Lemma failure_reason_not_as_worded :
  ((authWithPrompt Sample.libs
      (Scenario.consenting (Scenario.answer "ERROR" None))
      Scenario.message Scenario.lnurlDetails (Scenario.start [])).1
   = Ok (OutError JsUndefined)
   ∧ ¬ spec_failure_reason (Scenario.answer "ERROR" None) JsUndefined)
  ∧ ((authWithPrompt Sample.libs
        (Scenario.consenting (inl (AxiosError Scenario.status_400 (Some ""))))
        Scenario.message Scenario.lnurlDetails (Scenario.start [])).1
     = Ok (OutError (JsString Scenario.status_400))
     ∧ ¬ spec_failure_reason (inl (AxiosError Scenario.status_400 (Some "")))
           (JsString Scenario.status_400)).
Proof.
  split; (split; [vm_compute; reflexivity|]).
  - intros (msg & [=] & _).
  - intros [=].
Qed.

(** C4, amended. For a run that sent the request: it returns the data
    exactly when axios resolved with a body whose status is a string equal
    to [OK] up to letter case.  When axios resolved with a body whose status
    is another string, the run returns a failure with the body's [reason],
    or [undefined] when it has none; for an axios error, the failure has the
    [reason] of the error's response body when there is one and it is not
    empty, else the error's message; for another [Error] its message; for a
    rejection that is not an [Error], [undefined]. *)
Theorem dispatch_outcome L W m d s href :
  In (axios_get href) (made s (authWithPrompt L W m d s).2) →
  (∀ dat,
     (authWithPrompt L W m d s).1 = Ok (OutData dat)
     ↔ ∃ response t,
         axios_get_reply W href = inr response
         ∧ status (data response) = Some t
         ∧ JsString.toUpperCase t = "OK"
         ∧ dat = data response)
  ∧ match axios_get_reply W href with
    | inr response =>
        ∀ t,
          status (data response) = Some t →
          JsString.toUpperCase t ≠ "OK" →
          (authWithPrompt L W m d s).1
          = Ok (OutError match reason (data response) with
                         | Some r => JsString r
                         | None => JsUndefined
                         end)
    | inl (AxiosError msg (Some t)) =>
        (authWithPrompt L W m d s).1
        = Ok (OutError (JsString (if JsString.truthy t then t else msg)))
    | inl (AxiosError msg None) | inl (Error msg) =>
        (authWithPrompt L W m d s).1 = Ok (OutError (JsString msg))
    | inl (NonError _) =>
        (authWithPrompt L W m d s).1 = Ok (OutError JsUndefined)
    end.
Proof.
  intros Hin.
  destruct (Run_dispatch_inv L W m d s _ href (authWithPrompt_Run L W m d s) Hin)
    as (h & ls & s1 & ->).
  rewrite conclude_outcome.
  destruct (axios_get_reply W href) as [[msg|msg [t|]|v]|response]; cbn;
    try (split; [|done]; intros dat; split; [done|]; by intros (? & ? & [=] & _)).
  destruct (status (data response)) as [t|] eqn:Hst.
  2:{ split; [|done]. intros dat. split; [done|].
      intros (? & ? & [= <-] & Hs & _). congruence. }
  case_bool_decide as Hok.
  - split; [|intros t' [= <-] Hne; done]. intros dat. split.
    + intros [= <-]. by exists response, t.
    + by intros (? & ? & [= <-] & _ & _ & ->).
  - split; [|by intros t' [= <-] _]. intros dat. split; [done|].
    intros (? & t' & [= <-] & Hs & Hup & _). congruence.
Qed.

Lemma dispatch_outcome_witness :
  (authWithPrompt Sample.libs
     (Scenario.consenting (Scenario.answer "ERROR" (Some "bad sig")))
     Scenario.message Scenario.lnurlDetails (Scenario.start [])).1
  = Ok (OutError (JsString "bad sig")).
Proof.
  refine (proj2 (dispatch_outcome Sample.libs
                   (Scenario.consenting (Scenario.answer "ERROR" (Some "bad sig")))
                   Scenario.message Scenario.lnurlDetails (Scenario.start [])
                   "https://svc.example/login?tag=login&k1=ab12&sig=6605a372357b7ad2fcb4e92a4738fb3208dc2c9e33709213a48e3ed1bcad2669&key=02893840f9a9b8bb06f877b452f5a9ba24ea0b09be95a5681421c080ada9fdda85&t=1700000000000"
                   _) "ERROR" _ _).
  - vm_compute. auto 20.
  - reflexivity.
  - vm_compute. discriminate.
Defined.

(** * Remembering the login *)

Lemma caught_not_data m d e dat : (caught m d e).1 ≠ OutData dat.
Proof. unfold caught. by destruct (instanceof_Error e). Qed.

Lemma first_update_row h key rows r :
  first_equalsIgnoreCase h rows = Some r →
  first_equalsIgnoreCase h (update_row key <$> rows) = Some (update_row key r).
Proof.
  unfold first_equalsIgnoreCase. induction rows as [|a rows IH]; [done|].
  cbn. assert (allowance_host (update_row key a) = allowance_host a) as ->.
  { unfold update_row. by case_bool_decide. }
  destruct (JsString.equalsIgnoreCase (allowance_host a) h); [|done].
  by intros [= ->].
Qed.

Lemma truthy_id_Some a key :
  truthy_id a = Some key → ∃ r, a = Some r ∧ id r = Some key.
Proof.
  destruct a as [r|]; [|done]. cbn. destruct (id r) as [k|] eqn:Hid; [|done].
  case_bool_decide; [done|]. intros [= ->]. by exists r.
Qed.

Lemma made_committed rows cs l u s :
  made s (committed rows (logged cs (store l u s))) = cs.
Proof. unfold made; cbn. by rewrite drop_app_length. Qed.

(** C5 as the spec words it fails: with no row for the host, a success
    with [remember] true calls [update] not once but never; the flush still
    happens. *)
Lemma remember_without_row :
  (authWithPrompt Sample.libs (Scenario.consenting (Scenario.answer "OK" None))
     Scenario.message Scenario.lnurlDetails (Scenario.start [])).1
  = Ok (OutData {| status := Some "OK"; reason := None |})
  ∧ count is_update
      (made (Scenario.start [])
         (authWithPrompt Sample.libs
            (Scenario.consenting (Scenario.answer "OK" None))
            Scenario.message Scenario.lnurlDetails (Scenario.start [])).2)
    = 0%nat
  ∧ count is_flush
      (made (Scenario.start [])
         (authWithPrompt Sample.libs
            (Scenario.consenting (Scenario.answer "OK" None))
            Scenario.message Scenario.lnurlDetails (Scenario.start [])).2)
    = 1%nat.
Proof. vm_compute. done. Qed.

(** C5, amended. On success with [remember] true the row of the host is
    read again.  When it is found and has an id, [update] is called exactly
    once, with that id and [lnurlAuth: true], and the row the host then finds
    is marked; when there is no such row [update] is not called.  Either way
    the flush is called exactly once, as the last call of the run, and the
    persisted copy is the table. *)
Theorem remember_persisted L W m d s h loginStatus dat :
  origin_host (origin m) = Some h →
  (consent W m d (first_equalsIgnoreCase h (allowances s))).1 = inr loginStatus →
  remember loginStatus = true →
  (authWithPrompt L W m d s).1 = Ok (OutData dat) →
  count is_flush (made s (authWithPrompt L W m d s).2) = 1%nat
  ∧ last (made s (authWithPrompt L W m d s).2) = Some db_saveToStorage
  ∧ storage (authWithPrompt L W m d s).2 = allowances (authWithPrompt L W m d s).2
  ∧ match truthy_id (first_equalsIgnoreCase h (allowances s)) with
    | Some key =>
        List.filter is_update (made s (authWithPrompt L W m d s).2)
        = [db_allowances_update key true]
        ∧ allowances (authWithPrompt L W m d s).2
          = update_row key <$> allowances s
        ∧ ∃ r, first_equalsIgnoreCase h (allowances (authWithPrompt L W m d s).2)
               = Some r
               ∧ lnurlAuth r = true
    | None =>
        List.filter is_update (made s (authWithPrompt L W m d s).2) = []
        ∧ allowances (authWithPrompt L W m d s).2 = allowances s
    end.
Proof.
  intros Hh Hdec Hrem.
  pose proof (authWithPrompt_Run L W m d s) as HR.
  remember (authWithPrompt L W m d s) as r eqn:Er. clear Er.
  destruct HR as [Hn|h' e cs Hh' Hc|h' ls cs Hh' Hc Hconf
                 |h' ls cs e pre Hh' Hc Hconf Hauth Hpre
                 |h' ls cs u sg bytes Hh' Hc Hconf Htag Hgc Hsm Hu Hk];
    cbn [fst snd]; try done.
  { intros [= H]. by destruct (caught_not_data m d e dat). }
  assert (h' = h) as -> by congruence.
  rewrite Hc in Hdec. cbn [fst] in Hdec. injection Hdec as ->.
  unfold conclude.
  destruct (axios_get_reply W _) as [[msg|msg rr|v]|response]; try done.
  destruct (status (data response)) as [t|]; [|done].
  case_bool_decide as Hok; [|done]. rewrite Hrem. cbn [fst snd]. intros _.
  unfold remembered. cbn [allowances logged store].
  destruct (truthy_id (first_equalsIgnoreCase h (allowances s))) as [key|] eqn:Hkey.
  - rewrite logged_logged, logged_logged, made_committed.
    cbn [committed heap allowances storage calls].
    apply consent_inv in Hc as [(_ & _ & ->)|(_ & _ & ->)];
      (repeat split; [done..|]);
      apply truthy_id_Some in Hkey as (row & Hrow & Hid);
      exists (update_row key row);
      (split; [by apply first_update_row|]);
      unfold update_row; by rewrite bool_decide_eq_true_2.
  - rewrite logged_logged, logged_logged, made_committed.
    cbn [committed heap allowances storage calls].
    by apply consent_inv in Hc as [(_ & _ & ->)|(_ & _ & ->)].
Qed.

Lemma remember_persisted_witness :
  List.filter is_update
    (made (Scenario.start [Scenario.enabled_only])
       (authWithPrompt Sample.libs
          (Scenario.consenting (Scenario.answer "ok" None))
          Scenario.message Scenario.lnurlDetails
          (Scenario.start [Scenario.enabled_only])).2)
  = [db_allowances_update 7 true].
Proof.
  refine (proj1 (proj2 (proj2 (proj2
            (remember_persisted Sample.libs
               (Scenario.consenting (Scenario.answer "ok" None))
               Scenario.message Scenario.lnurlDetails
               (Scenario.start [Scenario.enabled_only])
               "Svc.Example" Scenario.yes_remember
               {| status := Some "ok"; reason := None |} _ _ _ _)))));
    vm_compute; reflexivity.
Defined.

(** * Further properties of [auth] *)

(** X1. A wallet that answers without a signature, or with an empty one,
    makes [auth] throw [Invalid Signature] right after the two calls to the
    wallet: nothing is hashed, and the store and the database are as
    before. *)
Theorem auth_invalid_signature L W d s :
  tag d = "login" →
  getConnector W = None →
  signMessage W LNURLAUTH_CANONICAL_PHRASE 0 0 = inr None
  ∨ signMessage W LNURLAUTH_CANONICAL_PHRASE 0 0 = inr (Some "") →
  auth L W d s
  = (Throw (Error "Invalid Signature"),
     logged [state_getConnector;
             connector_signMessage LNURLAUTH_CANONICAL_PHRASE 0 0] s).
Proof.
  intros Htag Hgc Hsig. unfold auth.
  rewrite bool_decide_eq_true_2 by done. cbn [negb]. run.
  rewrite Hgc. cbn [from_option settle]. run.
  by destruct Hsig as [-> | ->]; cbn [settle]; run.
Qed.

Lemma auth_invalid_signature_witness :
  auth Sample.libs
    {| password := None; openPrompt := λ _, inr Scenario.declined;
       getConnector := None; signMessage := λ _ _ _, inr (Some "");
       axios_get_reply := λ _, Scenario.answer "OK" None; now := 0 |}
    Scenario.lnurlDetails (Scenario.start [])
  = (Throw (Error "Invalid Signature"),
     logged [state_getConnector;
             connector_signMessage LNURLAUTH_CANONICAL_PHRASE 0 0]
       (Scenario.start [])).
Proof.
  apply auth_invalid_signature; [reflexivity|reflexivity|].
  right. reflexivity.
Defined.

(** X2. A failure of the wallet, be it the connector that cannot be had or
    the signing that is refused, leaves [auth] as the very value the wallet
    threw, not wrapped, and before anything is derived. *)
Theorem auth_wallet_failure L W d s e :
  tag d = "login" →
  (getConnector W = Some e
   ∨ getConnector W = None
     ∧ signMessage W LNURLAUTH_CANONICAL_PHRASE 0 0 = inl e) →
  (auth L W d s).1 = Throw e
  ∧ List.filter is_derivation (made s (auth L W d s).2) = []
  ∧ heap (auth L W d s).2 = heap s.
Proof.
  intros Htag Hw. unfold auth.
  rewrite bool_decide_eq_true_2 by done. cbn [negb]. run.
  destruct Hw as [Hgc|[Hgc Hsm]]; rewrite Hgc; cbn [from_option settle]; run.
  - cbn [fst snd]. by rewrite made_logged.
  - rewrite Hsm. cbn [settle]. run. cbn [fst snd]. by rewrite made_logged.
Qed.

Lemma auth_wallet_failure_witness :
  (auth Sample.libs
     {| password := None; openPrompt := λ _, inr Scenario.declined;
        getConnector := Some (NonError (JsString "locked"));
        signMessage := λ _ _ _, inr (Some "d0c0ffee");
        axios_get_reply := λ _, Scenario.answer "OK" None; now := 0 |}
     Scenario.lnurlDetails (Scenario.start [])).1
  = Throw (NonError (JsString "locked")).
Proof.
  refine (proj1 (auth_wallet_failure Sample.libs _ Scenario.lnurlDetails
                   (Scenario.start []) (NonError (JsString "locked")) _ _)).
  - reflexivity.
  - left. reflexivity.
Defined.

(** X3. A challenge whose URL has an empty host makes [auth] throw
    [Invalid input] once the signature is hashed: the HMAC is not computed,
    no signer is built and the URL is as it was. *)
Theorem auth_empty_host L W d s u signature :
  tag d = "login" →
  getConnector W = None →
  signMessage W LNURLAUTH_CANONICAL_PHRASE 0 0 = inr (Some signature) →
  signature ≠ "" →
  heap s !! url d = Some u →
  host u = "" →
  auth L W d s
  = (Throw (Error "Invalid input"),
     logged [state_getConnector;
             connector_signMessage LNURLAUTH_CANONICAL_PHRASE 0 0;
             crypto_sha256 signature] s).
Proof.
  intros Htag Hgc Hsm Hne Hu Hhost. unfold auth.
  destruct signature as [|c sg]; [done|].
  rewrite bool_decide_eq_true_2 by done. cbn [negb]. run.
  rewrite Hgc. cbn [from_option settle]. run.
  rewrite Hsm. cbn [settle]. run.
  rewrite keyDerivation_run. cbn [heap logged]. rewrite Hu. cbn zeta.
  rewrite Hhost. cbn [JsString.truthy negb orb]. run. reflexivity.
Qed.

Lemma auth_empty_host_witness :
  auth Sample.libs Scenario.idle Scenario.lnurlDetails
    {| heap := {[ 1%positive :=
                  {| protocol := "file:"; host := ""; pathname := "/login";
                     searchParams := []; hash := "" |} ]};
       allowances := []; storage := []; calls := [] |}
  = (Throw (Error "Invalid input"),
     logged [state_getConnector;
             connector_signMessage LNURLAUTH_CANONICAL_PHRASE 0 0;
             crypto_sha256 "d0c0ffee"]
       {| heap := {[ 1%positive :=
                     {| protocol := "file:"; host := ""; pathname := "/login";
                        searchParams := []; hash := "" |} ]};
          allowances := []; storage := []; calls := [] |}).
Proof.
  eapply auth_empty_host; try reflexivity. discriminate.
Defined.

(** X4. A challenge whose [k1] is empty, or is not decoded, makes [auth]
    throw [Invalid K1].  By then the wallet has signed, both keys are
    derived and the signer is built, and the empty [k1] itself has been
    handed to the decoder; but nothing is signed with the linking key, the
    URL is as it was and no request is sent. *)
Theorem auth_invalid_k1 L W d s u signature :
  tag d = "login" →
  getConnector W = None →
  signMessage W LNURLAUTH_CANONICAL_PHRASE 0 0 = inr (Some signature) →
  signature ≠ "" →
  heap s !! url d = Some u →
  host u ≠ "" →
  sha256 L signature ≠ [] →
  hmacSHA256 L (host u) (spec_hashingKey L signature) ≠ [] →
  k1 d = "" ∨ hexToUint8Array L (k1 d) = None →
  auth L W d s
  = (Throw (Error "Invalid K1"),
     logged [state_getConnector;
             connector_signMessage LNURLAUTH_CANONICAL_PHRASE 0 0;
             crypto_sha256 signature;
             crypto_hmacSHA256 (host u) (spec_hashingKey L signature);
             HashKeySigner_new (spec_linkingPrivateKey L signature (host u));
             utils_hexToUint8Array (k1 d)] s).
Proof.
  intros Htag Hgc Hsm Hne Hu Hhost Hsha Hmac Hk. unfold auth.
  destruct signature as [|c sg]; [done|].
  rewrite bool_decide_eq_true_2 by done. cbn [negb]. run.
  rewrite Hgc. cbn [from_option settle]. run.
  rewrite Hsm. cbn [settle]. run.
  rewrite keyDerivation_run. cbn [heap logged]. rewrite Hu. cbn zeta.
  rewrite (truthy_nonempty (host u)) by done.
  rewrite !truthy_stringify.
  fold (spec_hashingKey L (String c sg)).
  rewrite !bool_decide_eq_true_2 by done. cbn [negb orb]. run.
  destruct (hexToUint8Array L (k1 d)) as [bytes|] eqn:Hx; run; [|reflexivity].
  destruct Hk as [Hk|Hk]; [|done]. rewrite Hk. cbn [JsString.truthy negb].
  run. reflexivity.
Qed.

Lemma auth_invalid_k1_witness :
  (auth Sample.libs Scenario.idle
     {| tag := "login"; k1 := ""; url := 1%positive |}
     (Scenario.start [])).1
  = Throw (Error "Invalid K1").
Proof.
  rewrite (auth_invalid_k1 Sample.libs Scenario.idle
             {| tag := "login"; k1 := ""; url := 1%positive |}
             (Scenario.start []) Scenario.serviceURL "d0c0ffee");
    try reflexivity; try (vm_compute; discriminate).
  left. reflexivity.
Defined.

(** A run of [auth] that sent a request went through the whole of the
    derivation, and sent it to the URL it left in the store. *)
Lemma auth_dispatch_inv L W d s href :
  In (axios_get href) (made s (auth L W d s).2) →
  ∃ u signature bytes,
    heap s !! url d = Some u
    ∧ signMessage W LNURLAUTH_CANONICAL_PHRASE 0 0 = inr (Some signature)
    ∧ hexToUint8Array L (k1 d) = Some bytes
    ∧ heap (auth L W d s).2 !! url d = Some (callback_of L W u signature bytes)
    ∧ href = URL_toString L (callback_of L W u signature bytes).
Proof.
  intros Hin.
  destruct (auth_cases L W d s)
    as [(e & pre & Hauth & Hpre)
       |(u & signature & bytes & Htag & Hgc & Hsm & Hu & Hk & Hauth)].
  { rewrite Hauth in Hin. cbn [snd] in Hin. rewrite made_logged in Hin.
    apply (not_in_filter is_dispatch) in Hin; [done|].
    by apply before_dispatch_quiet; [apply not_request|]. }
  exists u, signature, bytes. repeat split; try done.
  - rewrite Hauth.
    rewrite (dispatch_run L W _ _ (callback_of L W u signature bytes))
      by apply lookup_store.
    cbn zeta.
    destruct (axios_get_reply W _) as [[msg|msg rr|v]|response];
      cbn [snd heap logged]; apply lookup_store.
  - rewrite Hauth in Hin.
    rewrite (dispatch_run L W _ _ (callback_of L W u signature bytes)) in Hin
      by apply lookup_store.
    cbn zeta in Hin.
    assert (∀ later,
              In (axios_get href)
                (calls_to_dispatch L signature (host u) (k1 d) bytes
                 ++ axios_get (URL_toString L (callback_of L W u signature bytes))
                    :: later) →
              List.filter is_dispatch later = [] →
              href = URL_toString L (callback_of L W u signature bytes)) as Hone.
    { intros later [H|[H|H]]%in_app_iff Hlater.
      - apply (not_in_filter is_dispatch) in H; done.
      - congruence.
      - apply (not_in_filter is_dispatch) in H; done. }
    destruct (axios_get_reply W _) as [[msg|msg rr|v]|response];
      cbn [snd] in Hin; rewrite logged_logged, made_logged_store in Hin;
      by apply Hone in Hin.
Qed.


(** X5. The request of [auth] goes to the serialisation of the very object
    the challenge holds, as it is in the store afterwards: the service URL
    with [sig] the signature of the decoded [k1] under the linking key,
    [key] the public key of that linking key, both derived from the
    wallet's signature and the URL's host, and [t] the clock. *)
Theorem auth_request_target L W d s href :
  In (axios_get href) (made s (auth L W d s).2) →
  ∃ u signature bytes,
    heap s !! url d = Some u
    ∧ signMessage W LNURLAUTH_CANONICAL_PHRASE 0 0 = inr (Some signature)
    ∧ hexToUint8Array L (k1 d) = Some bytes
    ∧ heap (auth L W d s).2 !! url d
      = Some (callback u
                (sign_toDER L (spec_linkingPrivateKey L signature (host u)) bytes)
                (pkHex L (spec_linkingPrivateKey L signature (host u)))
                (JsString.of_Z (now W)))
    ∧ href
      = URL_toString L
          (callback u
             (sign_toDER L (spec_linkingPrivateKey L signature (host u)) bytes)
             (pkHex L (spec_linkingPrivateKey L signature (host u)))
             (JsString.of_Z (now W))).
Proof. apply auth_dispatch_inv. Qed.

Lemma auth_request_target_witness :
  ∃ u signature bytes,
    heap (Scenario.start []) !! 1%positive = Some u
    ∧ signMessage Scenario.idle LNURLAUTH_CANONICAL_PHRASE 0 0
      = inr (Some signature)
    ∧ Sample.hexToUint8Array "ab12" = Some bytes.
Proof.
  destruct (auth_request_target Sample.libs Scenario.idle Scenario.lnurlDetails
              (Scenario.start [])
              "https://svc.example/login?tag=login&k1=ab12&sig=6605a372357b7ad2fcb4e92a4738fb3208dc2c9e33709213a48e3ed1bcad2669&key=02893840f9a9b8bb06f877b452f5a9ba24ea0b09be95a5681421c080ada9fdda85&t=1700000000000")
    as (u & signature & bytes & Hu & Hs & Hb & _).
  { vm_compute. auto 20. }
  by exists u, signature, bytes.
Defined.

(** X6. [auth] never writes to the allowances; and a run of it that sends no
    request has thrown, and has not touched the URL either. *)
Theorem auth_store_untouched L W d s :
  allowances (auth L W d s).2 = allowances s
  ∧ storage (auth L W d s).2 = storage s
  ∧ ((∀ href, ¬ In (axios_get href) (made s (auth L W d s).2)) →
     heap (auth L W d s).2 = heap s ∧ ∃ e, (auth L W d s).1 = Throw e).
Proof.
  destruct (auth_cases L W d s)
    as [(e & pre & Hauth & Hpre)
       |(u & signature & bytes & Htag & Hgc & Hsm & Hu & Hk & Hauth)].
  { rewrite Hauth. cbn. repeat split. by exists e. }
  rewrite Hauth.
  rewrite (dispatch_run L W _ _ (callback_of L W u signature bytes))
    by apply lookup_store.
  cbn zeta.
  destruct (axios_get_reply W _) as [[msg|msg rr|v]|response];
    cbn [fst snd]; rewrite logged_logged, made_logged_store;
    (split; [done|]; split; [done|]);
    intros Hno; exfalso; eapply Hno; apply in_app_iff; right; left; reflexivity.
Qed.

Lemma auth_store_untouched_witness :
  heap (auth Sample.libs Scenario.idle
          {| tag := "payRequest"; k1 := "ab12"; url := 1%positive |}
          (Scenario.start [])).2
  = heap (Scenario.start []).
Proof.
  refine (proj1 (proj2 (proj2 (auth_store_untouched Sample.libs Scenario.idle
            {| tag := "payRequest"; k1 := "ab12"; url := 1%positive |}
            (Scenario.start []))) _)).
  vm_compute. intros href [].
Defined.

(** * Further properties of [authWithPrompt] *)

Lemma count_app kind (a b : list Call) :
  count kind (a ++ b) = (count kind a + count kind b)%nat.
Proof. unfold count. by rewrite List.filter_app, length_app. Qed.

Lemma count_before_dispatch kind pre :
  (∀ c, before_dispatch c = true → kind c = false) →
  forallb before_dispatch pre = true →
  count kind pre = 0%nat.
Proof.
  intros Hk Hpre. unfold count.
  by rewrite (before_dispatch_quiet kind pre Hk Hpre).
Qed.

Lemma not_start c : before_dispatch c = true → is_start c = false.
Proof. by destruct c. Qed.

Ltac run_cases HR :=
  destruct HR as [Hn|h e cs Hh Hc|h ls cs Hh Hc Hconf
                 |h ls cs e pre Hh Hc Hconf Hauth Hpre
                 |h ls cs u sg bytes Hh Hc Hconf Htag Hgc Hsm Hu Hk];
  cbn [fst snd].

Ltac run_cases_at HR :=
  destruct HR as [Hn|h0 e cs Hh0 Hc|h0 ls cs Hh0 Hc Hconf
                 |h0 ls cs e pre Hh0 Hc Hconf Hauth Hpre
                 |h0 ls cs u sg bytes Hh0 Hc Hconf Htag Hgc Hsm Hu Hk];
  cbn [fst snd].

Ltac consent_cases Hc :=
  apply consent_inv in Hc as [(Hauto & Hdec & ->)|(Hauto & Hdec & ->)].

Ltac conclude_cases :=
  unfold conclude, remembered; cbn [allowances logged store];
  repeat match goal with
         | |- context [match ?x with _ => _ end] => destruct x eqn:?
         end;
  cbn [fst snd];
  rewrite ?logged_logged, ?made_committed, ?made_logged_store.

(** X7. Per run at most one of the two closing notifications is
    published, and at most once: [lnurl.auth.success] exactly when the run
    returns the data, [lnurl.auth.failed] never together with it. *)
Theorem success_xor_failed L W m d s :
  (count is_success (made s (authWithPrompt L W m d s).2)
   + count is_failed (made s (authWithPrompt L W m d s).2) ≤ 1)%nat
  ∧ (count is_success (made s (authWithPrompt L W m d s).2) = 1%nat
     ↔ ∃ dat, (authWithPrompt L W m d s).1 = Ok (OutData dat)).
Proof.
  pose proof (authWithPrompt_Run L W m d s) as HR.
  remember (authWithPrompt L W m d s) as r eqn:Er. clear Er.
  run_cases HR.
  - rewrite made_refl. vm_compute. split; [lia|].
    split; [done|]. by intros [? [=]].
  - rewrite made_logged. consent_cases Hc; vm_compute; (split; [lia|]);
      (split; [done|]); by intros [? [=]].
  - rewrite made_logged. consent_cases Hc; vm_compute; (split; [lia|]);
      (split; [done|]); by intros [? [=]].
  - rewrite made_logged, !count_app.
    rewrite (count_before_dispatch is_success pre not_success Hpre).
    rewrite (count_before_dispatch is_failed pre not_failed Hpre).
    assert (count is_success (caught m d e).2 = 0%nat
            ∧ count is_failed (caught m d e).2 = 1%nat) as [-> ->].
    { unfold caught. by destruct (instanceof_Error e). }
    assert (count is_success cs = 0%nat ∧ count is_failed cs = 0%nat) as [-> ->].
    { by consent_cases Hc. }
    split; [vm_compute; lia|]. split.
    + vm_compute. lia.
    + intros [dat [= H]]. by destruct (caught_not_data m d e dat).
  - assert (count is_success cs = 0%nat ∧ count is_failed cs = 0%nat) as [Hs Hf].
    { by consent_cases Hc. }
    conclude_cases; rewrite !count_app, Hs, Hf;
      (split; [vm_compute; lia|]); split;
      try (vm_compute; lia); try (by intros [? [=]]); try (by eexists);
      by vm_compute.
Qed.

Lemma success_xor_failed_witness :
  count is_success
    (made (Scenario.start [])
       (authWithPrompt Sample.libs
          (Scenario.consenting (Scenario.answer "OK" None))
          Scenario.message Scenario.lnurlDetails (Scenario.start [])).2)
  = 1%nat.
Proof.
  apply (proj2 (proj2 (success_xor_failed Sample.libs
                         (Scenario.consenting (Scenario.answer "OK" None))
                         Scenario.message Scenario.lnurlDetails
                         (Scenario.start [])))).
  exists {| status := Some "OK"; reason := None |}. vm_compute. reflexivity.
Defined.

(** X8. A run that does not return the data, whether it fails, is declined
    or has no host, leaves the allowances and their persisted copy as they
    were and calls neither [update] nor [saveToStorage]. *)
Theorem failure_leaves_db L W m d s :
  (∀ dat, (authWithPrompt L W m d s).1 ≠ Ok (OutData dat)) →
  allowances (authWithPrompt L W m d s).2 = allowances s
  ∧ storage (authWithPrompt L W m d s).2 = storage s
  ∧ count is_update (made s (authWithPrompt L W m d s).2) = 0%nat
  ∧ count is_flush (made s (authWithPrompt L W m d s).2) = 0%nat.
Proof.
  pose proof (authWithPrompt_Run L W m d s) as HR.
  remember (authWithPrompt L W m d s) as r eqn:Er. clear Er.
  run_cases HR; intros Hno.
  - by rewrite made_refl.
  - rewrite made_logged. by consent_cases Hc.
  - rewrite made_logged. by consent_cases Hc.
  - rewrite made_logged, !count_app.
    rewrite (count_before_dispatch is_update pre not_update Hpre).
    rewrite (count_before_dispatch is_flush pre not_flush Hpre).
    assert (count is_update (caught m d e).2 = 0%nat
            ∧ count is_flush (caught m d e).2 = 0%nat) as [-> ->].
    { unfold caught. by destruct (instanceof_Error e). }
    by consent_cases Hc.
  - revert Hno. conclude_cases; intros Hno;
      try (by destruct (Hno _ eq_refl));
      rewrite !count_app; by consent_cases Hc.
Qed.

Lemma failure_leaves_db_witness :
  storage (authWithPrompt Sample.libs
             (Scenario.consenting (Scenario.answer "ERROR" (Some "bad sig")))
             Scenario.message Scenario.lnurlDetails
             (Scenario.start [Scenario.enabled_only])).2
  = [].
Proof.
  refine (proj1 (proj2 (failure_leaves_db Sample.libs
            (Scenario.consenting (Scenario.answer "ERROR" (Some "bad sig")))
            Scenario.message Scenario.lnurlDetails
            (Scenario.start [Scenario.enabled_only]) _))).
  vm_compute. discriminate.
Defined.

(** X9. A success whose decision has [remember] false ends with the
    publication of the success: the allowance is not read again, nothing is
    updated and nothing is persisted. *)
Theorem success_without_remember L W m d s h loginStatus dat :
  origin_host (origin m) = Some h →
  (consent W m d (first_equalsIgnoreCase h (allowances s))).1 = inr loginStatus →
  remember loginStatus = false →
  (authWithPrompt L W m d s).1 = Ok (OutData dat) →
  (∃ response, data response = dat
      ∧ last (made s (authWithPrompt L W m d s).2) = Some (succeeded response m d))
  ∧ allowances (authWithPrompt L W m d s).2 = allowances s
  ∧ storage (authWithPrompt L W m d s).2 = storage s
  ∧ count is_update (made s (authWithPrompt L W m d s).2) = 0%nat
  ∧ count is_flush (made s (authWithPrompt L W m d s).2) = 0%nat.
Proof.
  intros Hh Hdec Hrem.
  pose proof (authWithPrompt_Run L W m d s) as HR.
  remember (authWithPrompt L W m d s) as r eqn:Er. clear Er.
  run_cases_at HR; try done.
  { intros [= H]. by destruct (caught_not_data m d e dat). }
  assert (h0 = h) as -> by congruence.
  rewrite Hc in Hdec. cbn [fst] in Hdec. injection Hdec as ->.
  unfold conclude. rewrite Hrem.
  destruct (axios_get_reply W _) as [[msg|msg rr|v]|response]; try done.
  destruct (status (data response)) as [t|]; [|done].
  case_bool_decide; [|done]. cbn [fst snd]. intros [= <-].
  rewrite logged_logged, made_logged_store, !count_app.
  split.
  - exists response. split; [done|]. by consent_cases Hc.
  - by consent_cases Hc.
Qed.

Lemma success_without_remember_witness :
  count is_flush
    (made (Scenario.start [Scenario.enabled_only])
       (authWithPrompt Sample.libs
          (Scenario.world (Some "secret")
             (inr {| confirmed := true; remember := false |})
             (Scenario.answer "OK" None))
          Scenario.message Scenario.lnurlDetails
          (Scenario.start [Scenario.enabled_only])).2)
  = 0%nat.
Proof.
  refine (proj2 (proj2 (proj2 (proj2
            (success_without_remember Sample.libs
               (Scenario.world (Some "secret")
                  (inr {| confirmed := true; remember := false |})
                  (Scenario.answer "OK" None))
               Scenario.message Scenario.lnurlDetails
               (Scenario.start [Scenario.enabled_only]) "Svc.Example"
               {| confirmed := true; remember := false |}
               {| status := Some "OK"; reason := None |} _ _ _ _)))));
    vm_compute; reflexivity.
Defined.

Lemma marked_or_same_refl rows : Forall2 marked_or_same rows rows.
Proof. induction rows; constructor; [by repeat split|done]. Qed.

Lemma marked_or_same_update key rows :
  Forall2 marked_or_same rows (update_row key <$> rows).
Proof.
  induction rows as [|a rows IH]; [constructor|]. cbn. constructor; [|done].
  unfold update_row. case_bool_decide; by repeat split.
Qed.

(** X10. Whatever the run, the table it leaves has the rows it had, in
    their order, with their ids, hosts and [enabled] flags; the one thing a
    run may change is to set [lnurlAuth] on rows, never to clear it.  The
    persisted copy is either untouched or that table. *)
Theorem rows_only_marked L W m d s :
  Forall2 marked_or_same (allowances s) (allowances (authWithPrompt L W m d s).2)
  ∧ (storage (authWithPrompt L W m d s).2 = storage s
     ∨ storage (authWithPrompt L W m d s).2
       = allowances (authWithPrompt L W m d s).2).
Proof.
  pose proof (authWithPrompt_Run L W m d s) as HR.
  remember (authWithPrompt L W m d s) as r eqn:Er. clear Er.
  run_cases HR; try (split; [apply marked_or_same_refl|by left]).
  conclude_cases; cbn [allowances storage committed logged store];
    try (split; [apply marked_or_same_refl|by auto]);
    (split; [apply marked_or_same_update|by auto]).
Qed.

(** X11. In a run with a host the first call is the publication of
    [lnurl.auth.start], which happens before the allowance is looked up and
    is not repeated. *)
Theorem start_published_first L W m d s h :
  origin_host (origin m) = Some h →
  head (made s (authWithPrompt L W m d s).2)
  = Some (PubSub_publish "lnurl.auth.start" (PStart m d))
  ∧ count is_start (made s (authWithPrompt L W m d s).2) = 1%nat.
Proof.
  intros Hh.
  pose proof (authWithPrompt_Run L W m d s) as HR.
  remember (authWithPrompt L W m d s) as r eqn:Er. clear Er.
  run_cases_at HR; [congruence|..].
  - rewrite made_logged. by consent_cases Hc.
  - rewrite made_logged. by consent_cases Hc.
  - rewrite made_logged, !count_app.
    rewrite (count_before_dispatch is_start pre not_start Hpre).
    assert (count is_start (caught m d e).2 = 0%nat) as ->.
    { unfold caught. by destruct (instanceof_Error e). }
    by consent_cases Hc.
  - conclude_cases; rewrite !count_app; by consent_cases Hc.
Qed.

Lemma start_published_first_witness :
  head (made (Scenario.start [])
          (authWithPrompt Sample.libs Scenario.rejecting Scenario.message
             Scenario.lnurlDetails (Scenario.start [])).2)
  = Some (PubSub_publish "lnurl.auth.start"
            (PStart Scenario.message Scenario.lnurlDetails)).
Proof.
  refine (proj1 (start_published_first Sample.libs Scenario.rejecting
                   Scenario.message Scenario.lnurlDetails (Scenario.start [])
                   "Svc.Example" _)).
  reflexivity.
Defined.

(** X12. The prompt is shown once in a run with a host, unless the wallet
    is unlocked and the row of the host is enabled and remembered, in which
    case it is not shown; it is never shown twice. *)
Theorem prompt_count L W m d s h :
  origin_host (origin m) = Some h →
  count is_prompt (made s (authWithPrompt L W m d s).2)
  = if isUnlocked W && auto_login (first_equalsIgnoreCase h (allowances s))
    then 0%nat else 1%nat.
Proof.
  intros Hh.
  destruct (Run_made L W m d s _ h (authWithPrompt_Run L W m d s) Hh)
    as (dec & cs & later & Hc & -> & Hlater).
  rewrite !count_app. unfold count at 3. rewrite Hlater.
  by consent_cases Hc; rewrite Hauto.
Qed.

Lemma prompt_count_witness :
  count is_prompt
    (made (Scenario.start [Scenario.enabled_only])
       (authWithPrompt Sample.libs
          (Scenario.consenting (Scenario.answer "OK" None))
          Scenario.message Scenario.lnurlDetails
          (Scenario.start [Scenario.enabled_only])).2)
  = 1%nat.
Proof.
  refine (prompt_count Sample.libs
            (Scenario.consenting (Scenario.answer "OK" None))
            Scenario.message Scenario.lnurlDetails
            (Scenario.start [Scenario.enabled_only]) "Svc.Example" _).
  reflexivity.
Defined.

(** X13. No work for the wallet, for crypto-js or for the signer, and no
    request, without consent: a run in which any of them is called had a
    decision with [confirmed] true, from the row of the host or from the
    prompt. *)
Theorem crypto_requires_consent L W m d s c :
  In c (made s (authWithPrompt L W m d s).2) →
  is_crypto_or_dispatch c = true →
  ∃ h loginStatus,
    origin_host (origin m) = Some h
    ∧ (consent W m d (first_equalsIgnoreCase h (allowances s))).1
      = inr loginStatus
    ∧ confirmed loginStatus = true.
Proof.
  pose proof (authWithPrompt_Run L W m d s) as HR.
  remember (authWithPrompt L W m d s) as r eqn:Er. clear Er.
  run_cases HR; intros Hin Hc'.
  - rewrite made_refl in Hin. destruct Hin.
  - rewrite made_logged in Hin.
    apply (not_in_filter is_crypto_or_dispatch) in Hin; [congruence|].
    by consent_cases Hc.
  - rewrite made_logged in Hin.
    apply (not_in_filter is_crypto_or_dispatch) in Hin; [congruence|].
    by consent_cases Hc.
  - exists h, ls. by rewrite Hc.
  - exists h, ls. by rewrite Hc.
Qed.

Lemma crypto_requires_consent_witness :
  ∃ h loginStatus,
    origin_host (origin Scenario.message) = Some h
    ∧ (consent (Scenario.consenting (Scenario.answer "OK" None))
         Scenario.message Scenario.lnurlDetails
         (first_equalsIgnoreCase h (allowances (Scenario.start [])))).1
      = inr loginStatus
    ∧ confirmed loginStatus = true.
Proof.
  apply (crypto_requires_consent Sample.libs
           (Scenario.consenting (Scenario.answer "OK" None))
           Scenario.message Scenario.lnurlDetails (Scenario.start [])
           (crypto_sha256 "d0c0ffee")).
  - vm_compute. auto 20.
  - reflexivity.
Defined.

(** The calls of [auth] are a beginning of the calls of a full run, then,
    if the request was sent, the request and what its failure logs. *)
Lemma auth_made_shape L W d s :
  ∃ sg h k bytes n later,
    made s (auth L W d s).2
    = take n (calls_to_dispatch L sg h k bytes) ++ later
    ∧ ((n ≤ 6)%nat ∨ hexToUint8Array L (k1 d) = Some bytes)
    ∧ count is_signMessage later = 0%nat
    ∧ count is_signature later = 0%nat
    ∧ (count is_dispatch later ≤ 1)%nat.
Proof.
  assert (∀ pre,
            (∃ sg h k bytes n,
               pre = take n (calls_to_dispatch L sg h k bytes) ∧ (n ≤ 6)%nat) →
            ∃ sg' h' k' bytes' n' later,
              made s (logged pre s)
              = take n' (calls_to_dispatch L sg' h' k' bytes') ++ later
              ∧ ((n' ≤ 6)%nat ∨ hexToUint8Array L (k1 d) = Some bytes')
              ∧ count is_signMessage later = 0%nat
              ∧ count is_signature later = 0%nat
              ∧ (count is_dispatch later ≤ 1)%nat) as Hearly.
  { intros pre (sg & h & k & bytes & n & -> & Hn).
    exists sg, h, k, bytes, n, [].
    rewrite made_logged, app_nil_r. repeat split; auto. }
  unfold auth. case_bool_decide as Htag; cbn [negb].
  2:{ rewrite throw_run. exists "", "", "", [], 0%nat, []. cbn [snd].
      rewrite made_refl. repeat split; auto. lia. }
  run. destruct (getConnector W) as [e|] eqn:Hc; cbn [from_option settle]; run.
  { apply Hearly. exists "", "", "", [], 1%nat. split; [done|lia]. }
  destruct (signMessage W _ 0 0) as [e|[[|c sg]|]] eqn:Hs; cbn [settle]; run;
    try (apply Hearly; exists "", "", "", [], 2%nat; split; [done|lia]).
  rewrite keyDerivation_run. cbn [heap logged]. cbn zeta.
  destruct (heap s !! url d) as [u|] eqn:Hu; run.
  2:{ apply Hearly. exists (String c sg), "", "", [], 3%nat. split; [done|lia]. }
  destruct (negb (JsString.truthy (host u)) || _); run.
  { apply Hearly. exists (String c sg), "", "", [], 3%nat. split; [done|lia]. }
  destruct (negb _ || negb _); run.
  { apply Hearly. exists (String c sg), (host u), "", [], 4%nat.
    split; [done|lia]. }
  destruct (hexToUint8Array L (k1 d)) as [bytes|] eqn:Hk; run.
  2:{ apply Hearly. exists (String c sg), (host u), (k1 d), [], 6%nat.
      split; [done|lia]. }
  destruct (negb (JsString.truthy (k1 d))); run.
  { apply Hearly. exists (String c sg), (host u), (k1 d), [], 6%nat.
    split; [done|lia]. }
  rewrite (buildCallback_run W _ _ _ (logged _ s) u Hu).
  run. rewrite store_logged. run.
  rewrite (dispatch_run L W _ _ (callback_of L W u (String c sg) bytes))
    by apply lookup_store.
  cbn zeta.
  exists (String c sg), (host u), (k1 d), bytes, 8%nat.
  destruct (axios_get_reply W _) as [[msg|msg rr|v]|response];
    cbn [snd]; rewrite logged_logged, made_logged_store;
    eexists; (split; [reflexivity|]); split; auto; vm_compute; repeat split; lia.
Qed.

Lemma count_take_le kind n (l : list Call) :
  (count kind (take n l) ≤ count kind l)%nat.
Proof.
  unfold count. revert n. induction l as [|c l IH]; intros [|n]; cbn; try lia.
  specialize (IH n). destruct (kind c); cbn; lia.
Qed.

Lemma in_take {A} n (l : list A) x : In x (take n l) → In x l.
Proof.
  revert n. induction l as [|a l IH]; intros [|n]; cbn; try done.
  intros [->|H]; [by left|right; by eapply IH].
Qed.

Lemma count_zero_not_in kind c (l : list Call) :
  count kind l = 0%nat → In c l → kind c = false.
Proof.
  unfold count. intros Hl. apply not_in_filter.
  by destruct (List.filter kind l).
Qed.

(** X14. In one run the wallet is asked to sign at most once, and only the
    canonical phrase under key family 0, index 0; the linking key signs at
    most once, and only the decoded [k1] of the challenge; and at most one
    request is sent. *)
Theorem one_signature_one_request L W m d s :
  (count is_signMessage (made s (authWithPrompt L W m d s).2) ≤ 1)%nat
  ∧ (count is_signature (made s (authWithPrompt L W m d s).2) ≤ 1)%nat
  ∧ (count is_dispatch (made s (authWithPrompt L W m d s).2) ≤ 1)%nat
  ∧ (∀ message kf ki,
       In (connector_signMessage message kf ki)
         (made s (authWithPrompt L W m d s).2) →
       message = LNURLAUTH_CANONICAL_PHRASE ∧ kf = 0 ∧ ki = 0)
  ∧ (∀ bytes,
       In (signer_sign bytes) (made s (authWithPrompt L W m d s).2) →
       hexToUint8Array L (k1 d) = Some bytes).
Proof.
  assert (∀ sg h' k bytes n later after,
    (n ≤ 6)%nat ∨ hexToUint8Array L (k1 d) = Some bytes →
    count is_signMessage later = 0%nat →
    count is_signature later = 0%nat →
    count is_signMessage after = 0%nat →
    count is_signature after = 0%nat →
    (count is_dispatch later + count is_dispatch after ≤ 1)%nat →
    ∀ h cs,
      (cs = [] ∨ cs = [utils_openPrompt (promptMessage m d)]) →
      let all := prelude m d h ++ cs
                 ++ (take n (calls_to_dispatch L sg h' k bytes) ++ later)
                 ++ after in
      (count is_signMessage all ≤ 1)%nat
      ∧ (count is_signature all ≤ 1)%nat
      ∧ (count is_dispatch all ≤ 1)%nat
      ∧ (∀ message kf ki,
           In (connector_signMessage message kf ki) all →
           message = LNURLAUTH_CANONICAL_PHRASE ∧ kf = 0 ∧ ki = 0)
      ∧ (∀ bytes', In (signer_sign bytes') all →
           hexToUint8Array L (k1 d) = Some bytes')) as Hgen.
  { intros sg h' k bytes n later after Hn Hl1 Hl2 Ha1 Ha2 Hd h cs Hcs all.
    subst all.
    assert (count is_signMessage cs = 0%nat ∧ count is_signature cs = 0%nat
            ∧ count is_dispatch cs = 0%nat) as (Hc1 & Hc2 & Hc3).
    { by destruct Hcs as [-> | ->]. }
    pose proof (count_take_le is_signMessage n
                  (calls_to_dispatch L sg h' k bytes)) as Ht1.
    pose proof (count_take_le is_signature n
                  (calls_to_dispatch L sg h' k bytes)) as Ht2.
    pose proof (count_take_le is_dispatch n
                  (calls_to_dispatch L sg h' k bytes)) as Ht3.
    change (count is_signMessage (calls_to_dispatch L sg h' k bytes))
      with 1%nat in Ht1.
    change (count is_signature (calls_to_dispatch L sg h' k bytes))
      with 1%nat in Ht2.
    change (count is_dispatch (calls_to_dispatch L sg h' k bytes))
      with 0%nat in Ht3.
    rewrite !count_app, Hc1, Hc2, Hc3, Hl1, Hl2, Ha1, Ha2.
    change (count is_signMessage (prelude m d h)) with 0%nat.
    change (count is_signature (prelude m d h)) with 0%nat.
    change (count is_dispatch (prelude m d h)) with 0%nat.
    split; [lia|]. split; [lia|]. split; [lia|]. split.
    - intros message kf ki Hin. rewrite !in_app_iff in Hin.
      destruct Hin as [Hin|[Hin|[[Hin|Hin]|Hin]]].
      + by repeat destruct Hin as [Hin|Hin].
      + by destruct Hcs as [-> | ->]; repeat destruct Hin as [Hin|Hin].
      + apply in_take in Hin.
        repeat destruct Hin as [Hin|Hin]; try done. by injection Hin as <- <- <-.
      + by apply (count_zero_not_in is_signMessage) in Hin.
      + by apply (count_zero_not_in is_signMessage) in Hin.
    - intros bytes' Hin. rewrite !in_app_iff in Hin.
      destruct Hin as [Hin|[Hin|[[Hin|Hin]|Hin]]].
      + by repeat destruct Hin as [Hin|Hin].
      + by destruct Hcs as [-> | ->]; repeat destruct Hin as [Hin|Hin].
      + destruct Hn as [Hn|Hn].
        * exfalso. revert Hin.
          do 7 (destruct n as [|n];
                [cbn; intros Hin; by repeat destruct Hin as [Hin|Hin]|]). lia.
        * apply in_take in Hin.
          repeat destruct Hin as [Hin|Hin]; try done. by injection Hin as <-.
      + by apply (count_zero_not_in is_signature) in Hin.
      + by apply (count_zero_not_in is_signature) in Hin. }
  pose proof (authWithPrompt_Run L W m d s) as HR.
  remember (authWithPrompt L W m d s) as r eqn:Er. clear Er.
  run_cases HR.
  - rewrite made_refl. vm_compute. repeat split; try lia; by intros.
  - rewrite made_logged.
    consent_cases Hc; vm_compute; repeat split; try lia; intros;
      by repeat match goal with H : _ ∨ _ |- _ => destruct H end.
  - rewrite made_logged.
    consent_cases Hc; vm_compute; repeat split; try lia; intros;
      by repeat match goal with H : _ ∨ _ |- _ => destruct H end.
  - rewrite made_logged.
    pose proof (auth_made_shape L W d (logged (prelude m d h ++ cs) s)) as Hs.
    rewrite Hauth in Hs. cbn [snd] in Hs.
    replace (made (logged (prelude m d h ++ cs) s)
               (logged (prelude m d h ++ cs ++ pre) s)) with pre in Hs.
    2:{ unfold made. cbn [calls logged].
        by rewrite !app_assoc, drop_app_length. }
    destruct Hs as (sg & h' & k & bytes & n & later & -> & Hn & Hl1 & Hl2 & Hl3).
    assert (count is_dispatch later = 0%nat) as Hl0.
    { pose proof (count_before_dispatch is_dispatch _ not_request Hpre) as H0.
      rewrite count_app in H0. lia. }
    apply Hgen; auto; try (consent_cases Hc; by auto);
      rewrite ?Hl0; unfold caught; destruct (instanceof_Error e);
      vm_compute; (done || lia).
  - assert (cs = [] ∨ cs = [utils_openPrompt (promptMessage m d)]) as Hcs.
    { consent_cases Hc; auto. }
    conclude_cases; rewrite <- ?app_assoc;
      lazymatch goal with
      | |- context [prelude m d h ++ cs
                    ++ calls_to_dispatch ?x1 ?x2 ?x3 ?x4 ?x5 ++ ?t] =>
          apply (Hgen x2 x3 x4 x5 8%nat [] t); auto; by vm_compute
      end.
Qed.

Lemma one_signature_one_request_witness :
  Sample.hexToUint8Array "ab12" = Some [Byte.xab; Byte.x12].
Proof.
  apply (proj2 (proj2 (proj2 (proj2
           (one_signature_one_request Sample.libs
              (Scenario.consenting (Scenario.answer "OK" None))
              Scenario.message Scenario.lnurlDetails (Scenario.start [])))))
           [Byte.xab; Byte.x12]).
  vm_compute. auto 20.
Defined.

(** X15. Remembering works: after a success with [remember] true for a
    host whose row is enabled and has an id, a later request from that host
    (whatever the letter case), with the wallet unlocked, is not prompted. *)
Theorem remember_then_bypass L W m d s h row key loginStatus dat W2 m2 d2 :
  origin_host (origin m) = Some h →
  first_equalsIgnoreCase h (allowances s) = Some row →
  id row = Some key →
  key ≠ 0 →
  enabled row = true →
  (consent W m d (Some row)).1 = inr loginStatus →
  remember loginStatus = true →
  (authWithPrompt L W m d s).1 = Ok (OutData dat) →
  origin_host (origin m2) = Some h →
  password W2 ≠ None →
  count is_prompt
    (made (authWithPrompt L W m d s).2
       (authWithPrompt L W2 m2 d2 (authWithPrompt L W m d s).2).2)
  = 0%nat.
Proof.
  intros Hh Hrow Hid Hkey Hen Hdec Hrem Hout Hh2 Hpw.
  assert (first_equalsIgnoreCase h (allowances (authWithPrompt L W m d s).2)
          = Some (update_row key row)) as Hfirst.
  { pose proof (authWithPrompt_Run L W m d s) as HR.
    remember (authWithPrompt L W m d s) as r eqn:Er. clear Er.
    revert Hout. run_cases_at HR; try done.
    { intros [= H]. by destruct (caught_not_data m d e dat). }
    assert (h0 = h) as -> by congruence.
    rewrite Hrow in Hc. rewrite Hc in Hdec. cbn [fst] in Hdec.
    injection Hdec as ->.
    unfold conclude, remembered. rewrite Hrem. cbn [allowances logged store].
    rewrite Hrow. cbn [truthy_id]. rewrite Hid.
    rewrite bool_decide_eq_false_2 by done.
    destruct (axios_get_reply W _) as [[msg|msg rr|v]|response]; try done.
    destruct (status (data response)) as [t|]; [|done].
    case_bool_decide; [|done]. cbn [fst snd]. intros _.
    cbn [allowances committed]. by apply first_update_row. }
  set (s1 := (authWithPrompt L W m d s).2) in *.
  destruct (Run_made L W2 m2 d2 s1 _ h (authWithPrompt_Run L W2 m2 d2 s1) Hh2)
    as (dec & cs & later & Hc & -> & Hlater).
  rewrite !count_app. unfold count at 3. rewrite Hlater.
  apply consent_inv in Hc as [(_ & _ & ->)|(Hauto & _)]; [done|].
  rewrite Hfirst in Hauto. unfold isUnlocked in Hauto.
  rewrite bool_decide_eq_true_2 in Hauto by done.
  cbn in Hauto. unfold update_row in Hauto.
  rewrite bool_decide_eq_true_2 in Hauto by done. cbn in Hauto.
  by rewrite Hen in Hauto.
Qed.

Lemma remember_then_bypass_witness :
  count is_prompt
    (made (authWithPrompt Sample.libs
             (Scenario.consenting (Scenario.answer "OK" None))
             Scenario.message Scenario.lnurlDetails
             (Scenario.start [Scenario.enabled_only])).2
       (authWithPrompt Sample.libs Scenario.rejecting Scenario.message
          Scenario.lnurlDetails
          (authWithPrompt Sample.libs
             (Scenario.consenting (Scenario.answer "OK" None))
             Scenario.message Scenario.lnurlDetails
             (Scenario.start [Scenario.enabled_only])).2).2)
  = 0%nat.
Proof.
  refine (remember_then_bypass Sample.libs
            (Scenario.consenting (Scenario.answer "OK" None))
            Scenario.message Scenario.lnurlDetails
            (Scenario.start [Scenario.enabled_only]) "Svc.Example"
            Scenario.enabled_only 7 Scenario.yes_remember
            {| status := Some "OK"; reason := None |}
            Scenario.rejecting Scenario.message Scenario.lnurlDetails
            _ _ _ _ _ _ _ _ _ _); vm_compute; done.
Defined.

Lemma auth_signMessage_rejects L W d s e :
  tag d = "login" →
  getConnector W = None →
  signMessage W LNURLAUTH_CANONICAL_PHRASE 0 0 = inl e →
  auth L W d s
  = (Throw e,
     logged [state_getConnector;
             connector_signMessage LNURLAUTH_CANONICAL_PHRASE 0 0] s).
Proof.
  intros Htag Hgc Hsm. unfold auth.
  rewrite bool_decide_eq_true_2 by done. cbn [negb]. run.
  rewrite Hgc. cbn [from_option settle]. run.
  rewrite Hsm. cbn [settle]. by run.
Qed.

(** X16. When the wallet refuses to sign after consent, the flow returns a
    failure and publishes it once.  The [error] returned is the message of
    what the wallet threw if that is an [Error]; if the wallet threw any
    other value, a string for instance, the [error] is [undefined] and the
    reason is lost to the caller. *)
Theorem wallet_refusal_surfaced L W m d s h loginStatus e :
  origin_host (origin m) = Some h →
  (consent W m d (first_equalsIgnoreCase h (allowances s))).1 = inr loginStatus →
  confirmed loginStatus = true →
  tag d = "login" →
  getConnector W = None →
  signMessage W LNURLAUTH_CANONICAL_PHRASE 0 0 = inl e →
  (authWithPrompt L W m d s).1
  = Ok (OutError match e with
                 | Error msg | AxiosError msg _ => JsString msg
                 | NonError _ => JsUndefined
                 end)
  ∧ count is_failed (made s (authWithPrompt L W m d s).2) = 1%nat
  ∧ count is_derivation (made s (authWithPrompt L W m d s).2) = 0%nat.
Proof.
  intros Hh Hdec Hconf Htag Hgc Hsm.
  rewrite (authWithPrompt_run L W m d s h Hh).
  unfold consent in Hdec.
  destruct (isUnlocked W && _); cbn [fst] in Hdec.
  - injection Hdec as <-.
    rewrite perform_run, (auth_signMessage_rejects L W d _ e) by done.
    cbn [confirmed]. destruct e as [msg|msg rr|v]; cbn [instanceof_Error fst snd];
      rewrite !logged_logged, made_logged; by vm_compute.
  - rewrite Hdec.
    rewrite perform_run, Hconf, (auth_signMessage_rejects L W d _ e) by done.
    destruct e as [msg|msg rr|v]; cbn [instanceof_Error fst snd];
      rewrite !logged_logged, made_logged; by vm_compute.
Qed.

Lemma wallet_refusal_surfaced_witness :
  (authWithPrompt Sample.libs
     {| password := Some "secret"; openPrompt := λ _, inr Scenario.yes_remember;
        getConnector := None;
        signMessage := λ _ _ _, inl (NonError (JsString "wallet is locked"));
        axios_get_reply := λ _, Scenario.answer "OK" None; now := 0 |}
     Scenario.message Scenario.lnurlDetails (Scenario.start [])).1
  = Ok (OutError JsUndefined).
Proof.
  refine (proj1 (wallet_refusal_surfaced Sample.libs _ Scenario.message
                   Scenario.lnurlDetails (Scenario.start []) "Svc.Example"
                   Scenario.yes_remember
                   (NonError (JsString "wallet is locked")) _ _ _ _ _ _));
    reflexivity.
Defined.

(** * Running twice on one challenge *)

Module SearchParamsAgain.
Import URLSearchParams.

Lemma without_cons_eq n x l : without n ((n, x) :: l) = without n l.
Proof. unfold without. cbn. by rewrite bool_decide_eq_true_2. Qed.

Lemma without_cons_ne a n x l :
  a ≠ n → without n ((a, x) :: l) = (a, x) :: without n l.
Proof. intros H. unfold without. cbn. by rewrite bool_decide_eq_false_2. Qed.

Lemma set_cons_eq n v x l : set n v ((n, x) :: l) = (n, v) :: without n l.
Proof. cbn. by rewrite bool_decide_eq_true_2. Qed.

Lemma set_cons_ne a n v x l :
  a ≠ n → set n v ((a, x) :: l) = (a, x) :: set n v l.
Proof. intros H. cbn. by rewrite bool_decide_eq_false_2. Qed.

Lemma without_without n m l :
  without n (without m l) = without m (without n l).
Proof.
  induction l as [|[a x] l IH]; [done|].
  destruct (decide (a = m)) as [Ham|Ham]; destruct (decide (a = n)) as [Han|Han];
    subst;
    repeat first [rewrite without_cons_eq | rewrite without_cons_ne by done];
    by rewrite ?IH.
Qed.

Lemma without_idem n l : without n (without n l) = without n l.
Proof.
  induction l as [|[a x] l IH]; [done|].
  destruct (decide (a = n)) as [->|Han];
    repeat first [rewrite without_cons_eq | rewrite without_cons_ne by done];
    by rewrite ?IH.
Qed.

Lemma set_without n m v l :
  n ≠ m → set n v (without m l) = without m (set n v l).
Proof.
  intros Hne. induction l as [|[a x] l IH].
  - cbn [set]. by rewrite without_cons_ne.
  - destruct (decide (a = m)) as [->|Ham].
    + rewrite without_cons_eq, (set_cons_ne m n) by done.
      by rewrite without_cons_eq.
    + rewrite (without_cons_ne a m) by done.
      destruct (decide (a = n)) as [->|Han].
      * rewrite !set_cons_eq, (without_cons_ne n m) by done.
        by rewrite without_without.
      * rewrite !(set_cons_ne a n), (without_cons_ne a m) by done.
        by rewrite IH.
Qed.

(** A second [set] of a name overwrites the first. *)
Lemma set_set n v v' l : set n v' (set n v l) = set n v' l.
Proof.
  induction l as [|[a x] l IH].
  - cbn. by rewrite bool_decide_eq_true_2.
  - destruct (decide (a = n)) as [->|Han].
    + by rewrite !set_cons_eq, without_idem.
    + rewrite !(set_cons_ne a n) by done. by rewrite IH.
Qed.

(** Setting a name that is present does not depend on whether another name
    is set before or after. *)
Lemma set_swap n m v w l :
  n ≠ m → getAll n l ≠ [] → set n v (set m w l) = set m w (set n v l).
Proof.
  intros Hne. induction l as [|[a x] l IH]; [done|]. intros Hin.
  destruct (decide (a = m)) as [->|Ham].
  - rewrite (set_cons_eq m), (set_cons_ne m n), (set_cons_ne m n) by done.
    rewrite (set_cons_eq m). by rewrite set_without.
  - rewrite (set_cons_ne a m) by done.
    destruct (decide (a = n)) as [->|Han].
    + rewrite !(set_cons_eq n), (set_cons_ne n m) by done.
      by rewrite set_without.
    + rewrite !(set_cons_ne a n), (set_cons_ne a m) by done.
      rewrite IH; [done|].
      revert Hin. unfold getAll. cbn.
      by rewrite (bool_decide_eq_false_2 (a = n)).
Qed.

End SearchParamsAgain.

Lemma callback_callback u a b c a' b' c' :
  callback (callback u a b c) a' b' c' = callback u a' b' c'.
Proof.
  unfold callback, URL_set. cbn [protocol host pathname hash searchParams].
  f_equal.
  set (l := searchParams u).
  assert (∀ v l0, URLSearchParams.getAll "sig" (URLSearchParams.set "sig" v l0)
                  ≠ []) as Hsig.
  { intros v l0. by rewrite SearchParamsFacts.getAll_set_eq. }
  assert (∀ v l0, URLSearchParams.getAll "key" (URLSearchParams.set "key" v l0)
                  ≠ []) as Hkey.
  { intros v l0. by rewrite SearchParamsFacts.getAll_set_eq. }
  rewrite (SearchParamsAgain.set_swap "sig" "t") by
    (done || (rewrite SearchParamsFacts.getAll_set_ne by done; apply Hsig)).
  rewrite (SearchParamsAgain.set_swap "sig" "key") by (done || apply Hsig).
  rewrite SearchParamsAgain.set_set.
  rewrite (SearchParamsAgain.set_swap "key" "t") by (done || apply Hkey).
  rewrite SearchParamsAgain.set_set.
  by rewrite SearchParamsAgain.set_set.
Qed.

(** X17. Because the URL of the challenge is rewritten in place, a second
    run of [auth] on the same challenge finds the first run's [sig], [key]
    and [t] on it; they are overwritten, not piled up: the second request
    goes to the URL a single run from the original service URL would have
    built with the second signature and clock. *)
Theorem auth_retry_same_request L W W2 d s href href2 :
  In (axios_get href) (made s (auth L W d s).2) →
  In (axios_get href2)
    (made (auth L W d s).2 (auth L W2 d (auth L W d s).2).2) →
  ∃ u signature2 bytes,
    heap s !! url d = Some u
    ∧ signMessage W2 LNURLAUTH_CANONICAL_PHRASE 0 0 = inr (Some signature2)
    ∧ hexToUint8Array L (k1 d) = Some bytes
    ∧ href2
      = URL_toString L
          (callback u
             (sign_toDER L (spec_linkingPrivateKey L signature2 (host u)) bytes)
             (pkHex L (spec_linkingPrivateKey L signature2 (host u)))
             (JsString.of_Z (now W2))).
Proof.
  intros Hin Hin2.
  destruct (auth_dispatch_inv L W d s href Hin)
    as (u & sg & bytes & Hu & Hsm & Hk & Hu1 & _).
  destruct (auth_dispatch_inv L W2 d _ href2 Hin2)
    as (u1 & sg2 & bytes2 & Hu1' & Hsm2 & Hk2 & _ & ->).
  rewrite Hu1 in Hu1'. injection Hu1' as <-.
  rewrite Hk in Hk2. injection Hk2 as <-.
  exists u, sg2, bytes. repeat split; try done.
  unfold callback_of. cbn [callback URL_set host].
  fold (callback u (sign_toDER L (spec_linkingPrivateKey L sg (host u)) bytes)
          (pkHex L (spec_linkingPrivateKey L sg (host u)))
          (JsString.of_Z (now W))).
  by rewrite callback_callback.
Qed.

Lemma auth_retry_same_request_witness :
  ∃ u signature2 bytes,
    heap (Scenario.start []) !! 1%positive = Some u
    ∧ signMessage (Scenario.consenting (Scenario.answer "OK" None))
        LNURLAUTH_CANONICAL_PHRASE 0 0 = inr (Some signature2)
    ∧ Sample.hexToUint8Array "ab12" = Some bytes.
Proof.
  destruct (auth_retry_same_request Sample.libs Scenario.idle
              (Scenario.consenting (Scenario.answer "OK" None))
              Scenario.lnurlDetails (Scenario.start [])
              "https://svc.example/login?tag=login&k1=ab12&sig=6605a372357b7ad2fcb4e92a4738fb3208dc2c9e33709213a48e3ed1bcad2669&key=02893840f9a9b8bb06f877b452f5a9ba24ea0b09be95a5681421c080ada9fdda85&t=1700000000000"
              "https://svc.example/login?tag=login&k1=ab12&sig=6605a372357b7ad2fcb4e92a4738fb3208dc2c9e33709213a48e3ed1bcad2669&key=02893840f9a9b8bb06f877b452f5a9ba24ea0b09be95a5681421c080ada9fdda85&t=1700000000000")
    as (u & signature2 & bytes & Hu & Hs & Hb & _).
  { vm_compute. auto 20. }
  { vm_compute. auto 20. }
  by exists u, signature2, bytes.
Defined.

(** * A reply without a status *)

(** A run that sent a request to [href] ends as [conclude] says, from a
    state in which nothing had been published since the start. *)
Lemma Run_dispatch_state L W m d s r href :
  Run L W m d s r →
  In (axios_get href) (made s r.2) →
  ∃ h ls pre u,
    r = conclude m d h ls href (axios_get_reply W href)
          (logged pre (store (url d) u s))
    ∧ count is_failed pre = 0%nat
    ∧ count is_success pre = 0%nat.
Proof.
  intros HR Hin.
  destruct HR as [Hn|h e cs Hh Hc|h ls cs Hh Hc Hconf
                 |h ls cs e pre Hh Hc Hconf Hauth Hpre
                 |h ls cs u sg bytes Hh Hc Hconf Htag Hgc Hsm Hu Hk];
    cbn [fst snd] in *.
  - rewrite made_refl in Hin. destruct Hin.
  - rewrite made_logged in Hin. exfalso.
    apply (not_in_filter is_dispatch) in Hin; [done|].
    rewrite List.filter_app.
    by apply consent_inv in Hc as [(_ & _ & ->)|(_ & _ & ->)].
  - rewrite made_logged in Hin. exfalso.
    apply (not_in_filter is_dispatch) in Hin; [done|].
    rewrite List.filter_app.
    by apply consent_inv in Hc as [(_ & _ & ->)|(_ & _ & ->)].
  - rewrite made_logged in Hin. exfalso.
    apply (not_in_filter is_dispatch) in Hin; [done|].
    rewrite !List.filter_app.
    rewrite (before_dispatch_quiet _ _ not_request Hpre).
    unfold caught.
    apply consent_inv in Hc as [(_ & _ & ->)|(_ & _ & ->)];
      by destruct (instanceof_Error e).
  - set (href0 := URL_toString L (callback_of L W u sg bytes)) in *.
    set (s1 := logged _ (store _ _ s)) in *.
    destruct (conclude_calls m d h ls href0 (axios_get_reply W href0) s1)
      as (after & Hcalls & _ & _ & Hafter).
    assert (href = href0) as ->.
    { rewrite (made_app s _ (prelude m d h ++ cs
                 ++ calls_to_dispatch L sg (host u) (k1 d) bytes
                 ++ axios_get href0 :: after)) in Hin.
      2:{ rewrite Hcalls. unfold s1. cbn [calls logged store].
          by rewrite <- !app_assoc. }
      rewrite !in_app_iff in Hin.
      destruct Hin as [Hin|[Hin|[Hin|[Hin|Hin]]]].
      + apply (not_in_filter is_dispatch) in Hin; done.
      + apply (not_in_filter is_dispatch) in Hin; [done|].
        by apply consent_inv in Hc as [(_ & _ & ->)|(_ & _ & ->)].
      + apply (not_in_filter is_dispatch) in Hin; done.
      + congruence.
      + apply (not_in_filter is_dispatch) in Hin; done. }
    exists h, ls, (prelude m d h ++ cs
                   ++ calls_to_dispatch L sg (host u) (k1 d) bytes),
      (callback_of L W u sg bytes).
    split; [done|]. rewrite !count_app.
    by apply consent_inv in Hc as [(_ & _ & ->)|(_ & _ & ->)].
Qed.

(** X25. The check of the status, line 79, stands outside the [try]: when
    a request was sent and axios resolved with a body that has no string
    [status], [authWithPrompt] does not return but throws a [TypeError].
    The request is then the last call of the run; neither
    [lnurl.auth.success] nor [lnurl.auth.failed] has been published, and
    the allowances and their persisted copy are as before. *)
Theorem reply_without_status_throws L W m d s href response :
  In (axios_get href) (made s (authWithPrompt L W m d s).2) →
  axios_get_reply W href = inr response →
  status (data response) = None →
  (authWithPrompt L W m d s).1 = Throw TypeError_undefined
  ∧ last (made s (authWithPrompt L W m d s).2) = Some (axios_get href)
  ∧ count is_failed (made s (authWithPrompt L W m d s).2) = 0%nat
  ∧ count is_success (made s (authWithPrompt L W m d s).2) = 0%nat
  ∧ allowances (authWithPrompt L W m d s).2 = allowances s
  ∧ storage (authWithPrompt L W m d s).2 = storage s.
Proof.
  intros Hin Hreply Hst.
  destruct (Run_dispatch_state L W m d s _ href
              (authWithPrompt_Run L W m d s) Hin)
    as (h & ls & pre & u & -> & Hf & Hs).
  unfold conclude. rewrite Hreply, Hst. cbn [fst snd].
  rewrite logged_logged, made_logged_store, !count_app, Hf, Hs.
  repeat split; try done. by rewrite last_snoc.
Qed.

Lemma reply_without_status_throws_witness :
  (authWithPrompt Sample.libs
     (Scenario.consenting
        (inr {| data := {| status := None; reason := None |} |}))
     Scenario.message Scenario.lnurlDetails (Scenario.start [])).1
  = Throw TypeError_undefined.
Proof.
  refine (proj1 (reply_without_status_throws Sample.libs
            (Scenario.consenting
               (inr {| data := {| status := None; reason := None |} |}))
            Scenario.message Scenario.lnurlDetails (Scenario.start [])
            "https://svc.example/login?tag=login&k1=ab12&sig=6605a372357b7ad2fcb4e92a4738fb3208dc2c9e33709213a48e3ed1bcad2669&key=02893840f9a9b8bb06f877b452f5a9ba24ea0b09be95a5681421c080ada9fdda85&t=1700000000000"
            {| data := {| status := None; reason := None |} |} _ _ _)).
  - vm_compute. auto 20.
  - reflexivity.
  - reflexivity.
Defined.

(** * The "Connect With Alby" button *)

Module ConnectAlbyFacts.
Import ConnectAlby.

(** Every run of [connectAlby] returns, with [loading] false, having shown
    what [expected] lists. *)
Lemma connectAlby_run W v :
  connectAlby W v
  = (Ok tt, {| loading := false; trace := trace v ++ expected W |}).
Proof.
  unfold connectAlby, expected, attempt, request, set_loading, emit, raise.
  unfold mbind, UI_bind, mret, UI_ret. cbn.
  destruct (answer_validateAccount W initialAccount) as [e|validation]; cbn.
  { destruct (instanceof_Error e); cbn; by rewrite <- ?app_assoc. }
  destruct (valid validation); cbn; [|by rewrite <- ?app_assoc].
  destruct (truthy_string (oAuthToken validation)) as [token|]; cbn;
    [|by rewrite <- ?app_assoc].
  destruct (answer_addAccount W (account_of validation token))
    as [e|addResult]; cbn.
  { destruct (instanceof_Error e); cbn; by rewrite <- ?app_assoc. }
  destruct (truthy_string (accountId addResult)) as [id|]; cbn;
    [|by rewrite <- ?app_assoc].
  destruct (answer_selectAccount W id) as [e|[]]; cbn.
  { destruct (instanceof_Error e); cbn; by rewrite <- ?app_assoc. }
  destruct (fromWelcome W); cbn; by rewrite <- ?app_assoc.
Qed.

Lemma shown_run W v : shown v (connectAlby W v).2 = expected W.
Proof.
  rewrite connectAlby_run. unfold shown. cbn. by rewrite drop_app_length.
Qed.


Ltac alby_cases W :=
  unfold expected;
  destruct (answer_validateAccount W initialAccount) as [e|validation] eqn:Hv;
  [destruct (instanceof_Error e) eqn:He
  |destruct (valid validation) eqn:Hvalid;
   [destruct (truthy_string (oAuthToken validation)) as [token|] eqn:Htok;
    [destruct (answer_addAccount W (account_of validation token))
       as [e|addResult] eqn:Ha;
     [destruct (instanceof_Error e) eqn:He
     |destruct (truthy_string (accountId addResult)) as [id|] eqn:Hid;
      [destruct (answer_selectAccount W id) as [e|[]] eqn:Hs;
       [destruct (instanceof_Error e) eqn:He|]
      |]]
    |]
   |]].

(** X18. However the background script answers, [connectAlby] returns
    normally; its first act is [setLoading(true)], which disables the
    button, and it ends with [loading] false, the button enabled again. *)
Theorem connectAlby_restores_button W v :
  (connectAlby W v).1 = Ok tt
  ∧ head (shown v (connectAlby W v).2) = Some (setLoading true)
  ∧ loading (connectAlby W v).2 = false
  ∧ disabled (render (connectAlby W v).2) = false.
Proof.
  rewrite shown_run. rewrite connectAlby_run. by cbn.
Qed.

(** X19. [connectAlby] navigates exactly when the account validated with a
    token, was added under an id and was selected; the page is
    [/pin-extension] when the component was opened from the welcome screen
    and [/discover] otherwise. *)
Theorem connectAlby_navigates_iff W v path :
  In (navigate path) (shown v (connectAlby W v).2)
  ↔ ∃ validation token addResult id,
      answer_validateAccount W initialAccount = inr validation
      ∧ valid validation = true
      ∧ truthy_string (oAuthToken validation) = Some token
      ∧ answer_addAccount W (account_of validation token) = inr addResult
      ∧ truthy_string (accountId addResult) = Some id
      ∧ answer_selectAccount W id = inr tt
      ∧ path = if fromWelcome W then "/pin-extension" else "/discover".
Proof.
  rewrite shown_run. split.
  - alby_cases W; cbn; intros Hin;
      repeat (destruct Hin as [Hin|Hin]; try discriminate Hin); try done.
    injection Hin as <-. by exists validation, token, addResult, id.
  - intros (validation & token & addResult & id
            & Hv & Hvalid & Htok & Ha & Hid & Hs & ->).
    unfold expected. rewrite Hv, Hvalid, Htok, Ha, Hid, Hs. cbn. auto 10.
Qed.

Lemma connectAlby_navigates_iff_witness :
  In (navigate "/pin-extension")
    (shown idle_view (connectAlby (happy true) idle_view).2).
Proof.
  apply (proj2 (connectAlby_navigates_iff (happy true) idle_view
                  "/pin-extension")).
  exists with_token, "token", {| accountId := Some "acc1" |}, "acc1".
  by repeat split.
Defined.

(** X20. A run shows at most one toast and navigates at most once, and
    never does both; it sends at most three requests. *)
Theorem connectAlby_toast_or_navigate W v :
  (length (List.filter is_toast (shown v (connectAlby W v).2))
   + length (List.filter is_navigate (shown v (connectAlby W v).2)) ≤ 1)%nat
  ∧ (length (List.filter is_request (shown v (connectAlby W v).2)) ≤ 3)%nat.
Proof.
  rewrite shown_run. alby_cases W; cbn; lia.
Qed.

(** X21. The account is added only after a validation that is valid and
    carries a token, under the alias of the node, with that token as its
    only setting and the connector [alby]; and an account is selected only
    under the id with which [addAccount] answered. *)
Theorem connectAlby_requests W v :
  (∀ a, In (msg_request (addAccount a)) (shown v (connectAlby W v).2) →
     ∃ validation token,
       answer_validateAccount W initialAccount = inr validation
       ∧ valid validation = true
       ∧ oAuthToken validation = Some token
       ∧ token ≠ ""
       ∧ a = {| name := info_data_alias validation;
                config := [("oAuthToken", token)];
                connector := "alby" |})
  ∧ (∀ id, In (msg_request (selectAccount id)) (shown v (connectAlby W v).2) →
       ∃ a addResult,
         In (msg_request (addAccount a)) (shown v (connectAlby W v).2)
         ∧ answer_addAccount W a = inr addResult
         ∧ accountId addResult = Some id).
Proof.
  assert (∀ o t, truthy_string o = Some t → o = Some t ∧ t ≠ "") as Htruthy.
  { intros [t'|] t; cbn; [|done]. destruct t'; cbn; [done|].
    by intros [= <-]. }
  rewrite shown_run. split.
  - intros a. alby_cases W; cbn; intros Hin;
      repeat (destruct Hin as [Hin|Hin]; try discriminate Hin); try done;
      injection Hin as <-;
      destruct (Htruthy _ _ Htok) as [Ht Hne];
      by exists validation, token.
  - intros id'. alby_cases W; cbn; intros Hin;
      repeat (destruct Hin as [Hin|Hin]; try discriminate Hin); try done;
      injection Hin as <-;
      destruct (Htruthy _ _ Hid) as [Hi _];
      exists (account_of validation token), addResult; auto.
Qed.

Lemma connectAlby_requests_witness :
  ∃ validation token,
    answer_validateAccount (happy false) initialAccount = inr validation
    ∧ valid validation = true
    ∧ oAuthToken validation = Some token
    ∧ token ≠ "".
Proof.
  destruct (proj1 (connectAlby_requests (happy false) idle_view)
              {| name := "node"; config := [("oAuthToken", "token")];
                 connector := "alby" |})
    as (validation & token & Hv & Hvalid & Htok & Hne & _).
  { vm_compute. auto. }
  by exists validation, token.
Defined.

(** X22. A validation that is valid but carries no token, or an empty one,
    is reported as a failed connection with the text
    [No oAuthToken returned]; no account is added, and [setLoading(false)]
    is called twice, before the throw and in the handler. *)
Theorem connectAlby_missing_token W v validation :
  answer_validateAccount W initialAccount = inr validation →
  valid validation = true →
  oAuthToken validation = None ∨ oAuthToken validation = Some "" →
  shown v (connectAlby W v).2
  = [setLoading true; msg_request (validateAccount initialAccount);
     setLoading false; setLoading false;
     console_error_exn (Error "No oAuthToken returned");
     toast_error (tCommon W "errors.connection_failed"
                  +:+ " (No oAuthToken returned)")].
Proof.
  intros Hv Hvalid Htok. rewrite shown_run. unfold expected.
  rewrite Hv, Hvalid. by destruct Htok as [-> | ->].
Qed.

Lemma connectAlby_missing_token_witness :
  shown idle_view
    (connectAlby (answering no_token {| accountId := Some "acc1" |})
       idle_view).2
  = [setLoading true; msg_request (validateAccount initialAccount);
     setLoading false; setLoading false;
     console_error_exn (Error "No oAuthToken returned");
     toast_error "Connection failed (No oAuthToken returned)"].
Proof.
  exact (connectAlby_missing_token
           (answering no_token {| accountId := Some "acc1" |}) idle_view
           no_token eq_refl eq_refl (or_intror eq_refl)).
Defined.

(** X23. Two failures pass unseen.  When [addAccount] answers without an
    account id, and when a request is rejected with a value that is not an
    [Error], the run ends with the button enabled and neither a toast nor a
    navigation. *)
Theorem connectAlby_silent W v :
  (∃ validation token addResult,
     answer_validateAccount W initialAccount = inr validation
     ∧ valid validation = true
     ∧ truthy_string (oAuthToken validation) = Some token
     ∧ answer_addAccount W (account_of validation token) = inr addResult
     ∧ truthy_string (accountId addResult) = None)
  ∨ (∃ x, answer_validateAccount W initialAccount = inl (NonError x)) →
  List.filter is_toast (shown v (connectAlby W v).2) = []
  ∧ List.filter is_navigate (shown v (connectAlby W v).2) = []
  ∧ loading (connectAlby W v).2 = false.
Proof.
  intros H. rewrite shown_run, connectAlby_run. unfold expected.
  destruct H as [(validation & token & addResult & Hv & Hvalid & Htok & Ha & Hid)
                |(x & Hv)].
  - by rewrite Hv, Hvalid, Htok, Ha, Hid.
  - by rewrite Hv.
Qed.

Lemma connectAlby_silent_witness :
  List.filter is_toast
    (shown idle_view
       (connectAlby (answering with_token {| accountId := None |})
          idle_view).2)
  = [].
Proof.
  refine (proj1 (connectAlby_silent
                   (answering with_token {| accountId := None |})
                   idle_view _)).
  left. exists with_token, "token", {| accountId := None |}.
  by repeat split.
Defined.

(** X24. A validation that is not valid is reported in a toast that quotes
    its [error]; when the answer has no [error] the toast reads
    [(undefined)].  Nothing is added and nothing navigates. *)
Theorem connectAlby_invalid W v validation :
  answer_validateAccount W initialAccount = inr validation →
  valid validation = false →
  shown v (connectAlby W v).2
  = [setLoading true; msg_request (validateAccount initialAccount);
     setLoading false; console_error_validation validation;
     toast_error (tCommon W "errors.connection_failed" +:+ " ("
                  +:+ match error validation with
                      | Some t => t
                      | None => "undefined"
                      end +:+ ")")].
Proof.
  intros Hv Hvalid. rewrite shown_run. unfold expected.
  by rewrite Hv, Hvalid.
Qed.

Lemma connectAlby_invalid_witness :
  shown idle_view
    (connectAlby (answering refused {| accountId := None |}) idle_view).2
  = [setLoading true; msg_request (validateAccount initialAccount);
     setLoading false; console_error_validation refused;
     toast_error "Connection failed (undefined)"].
Proof.
  exact (connectAlby_invalid (answering refused {| accountId := None |})
           idle_view refused eq_refl eq_refl).
Defined.

End ConnectAlbyFacts.
